(** * The audio utilities of the media workbench

    A shallow embedding of the PCM-to-WAV encoder [writeWav] (lines 40-93 of
    the audio utilities) and of the string helpers [getMimeType],
    [formatTime] and the [onload] handler of [fileToBase64], with the proofs
    of the properties their specification states and of further properties
    read off the code.

    - JavaScript numbers that hold samples are IEEE 754 binary64 values;
      they are embedded as [spec_float] with the operations of [SpecFloat]
      at precision 53 and maximal exponent 1024, so that every arithmetic
      step of the sample conversion is bit-exact.
    - JavaScript numbers that hold sizes, rates, cursors and counters are
      integers below 2^53, on which the arithmetic of the code is exact;
      they are embedded as [Z].
    - The [ArrayBuffer] is a list of bytes, written through the
      little-endian [DataView] setters.
    - The closure state of [writeWav] ([view], [pos], [offset], [channels])
      is threaded through a small state-and-exception monad. *)

From Stdlib Require Import ZArith Lia Bool String Ascii List.
From Stdlib Require Import DecimalString DecimalZ.
From Stdlib Require Import Floats.SpecFloat.
From coqutil Require Import Byte Word.LittleEndianList.
Import ListNotations.
Local Open Scope Z_scope.

(* ===================================================================== *)
(** ** JavaScript numbers *)
(* ===================================================================== *)

Module JS.

Definition prec : Z := 53.
Definition emax : Z := 1024.

(** A JavaScript number: a binary64 floating-point value. *)
Definition number : Type := spec_float.

Definition valid (x : number) : bool := valid_binary prec emax x.

Definition NaN : number := S754_nan.

(** The number denoted by an integer literal. *)
Definition of_Z (z : Z) : number := binary_normalize prec emax z 0 false.

(** The number [m * 2^e], for literals such as [0.5]. *)
Definition of_dyadic (m e : Z) : number := binary_normalize prec emax m e false.

Definition add (x y : number) : number := SFadd prec emax x y.
Definition mul (x y : number) : number := SFmul prec emax x y.
Definition ltb (x y : number) : bool := SFltb x y.

Definition is_neg_zero (x : number) : bool :=
  match x with S754_zero true => true | _ => false end.

(** [Math.min(x, y)]: NaN if either argument is NaN; [-0] is smaller
    than [+0]. *)
Definition Math_min (x y : number) : number :=
  match SFcompare x y with
  | None => NaN
  | Some Lt => x
  | Some Gt => y
  | Some Eq => if is_neg_zero x then x else y
  end.

(** [Math.max(x, y)]: NaN if either argument is NaN; [+0] is larger
    than [-0]. *)
Definition Math_max (x y : number) : number :=
  match SFcompare x y with
  | None => NaN
  | Some Lt => y
  | Some Gt => x
  | Some Eq => if is_neg_zero x then y else x
  end.

(** The mathematical integer obtained by dropping the fractional part of
    a finite number ([truncate] of ECMA-262); [None] for NaN and the
    infinities. *)
Definition truncate (x : number) : option Z :=
  match x with
  | S754_zero _ => Some 0
  | S754_finite s m e => Some (cond_Zopp s (Z.shiftl (Z.pos m) e))
  | S754_infinity _ | S754_nan => None
  end.

(** Two's-complement wrap-around of an integer to [w] bits, signed. *)
Definition wrap_signed (w : Z) (z : Z) : Z :=
  let r := z mod 2 ^ w in
  if r <? 2 ^ (w - 1) then r else r - 2 ^ w.

(** [ToInt32], the conversion applied by [x | 0]: NaN and the infinities
    become 0, every other number is truncated and wrapped to 32 bits. *)
Definition ToInt32 (x : number) : Z :=
  match truncate x with
  | Some z => wrap_signed 32 z
  | None => 0
  end.

(** [x | 0] *)
Definition bitor0 (x : number) : Z := ToInt32 x.

(** [x === y] on numbers: [-0] equals [+0], NaN equals nothing. *)
Definition eqb (x y : number) : bool := SFeqb x y.

(** [SameValueZero(x, y)] of ECMA-262: as [===], but NaN is the same
    value as NaN. *)
Definition SameValueZero (x y : number) : bool :=
  match x, y with
  | S754_nan, S754_nan => true
  | _, _ => SFeqb x y
  end.

End JS.

(* ===================================================================== *)
(** ** ArrayBuffer and DataView *)
(* ===================================================================== *)

(** [new ArrayBuffer(n)]: [n] zero bytes. *)
Definition new_ArrayBuffer (n : Z) : list byte :=
  repeat Byte.x00 (Z.to_nat n).

(** Overwrite [List.length bs] bytes of [buf] starting at byte [off]; [None]
    when the range is not inside the buffer (the [RangeError] of the
    [DataView] setters). *)
Definition write_bytes (buf : list byte) (off : Z) (bs : list byte)
  : option (list byte) :=
  if (0 <=? off) && (off + Z.of_nat (List.length bs) <=? Z.of_nat (List.length buf)) then
    Some (firstn (Z.to_nat off) buf ++ bs
            ++ skipn (Z.to_nat off + List.length bs) buf)
  else None.

(** [view.setUint16(off, data, true)]: [data] modulo 2^16, little-endian. *)
Definition DataView_setUint16 (buf : list byte) (off data : Z) :=
  write_bytes buf off (le_split 2 data).

(** [view.setUint32(off, data, true)]: [data] modulo 2^32, little-endian. *)
Definition DataView_setUint32 (buf : list byte) (off data : Z) :=
  write_bytes buf off (le_split 4 data).

(** [view.setInt16(off, data, true)]: the two's-complement 16-bit pattern
    of [data], little-endian. *)
Definition DataView_setInt16 (buf : list byte) (off data : Z) :=
  write_bytes buf off (le_split 2 data).

(** Reading back: the [n] bytes at [off]. *)
Definition slice (buf : list byte) (off : Z) (n : nat) : list byte :=
  firstn n (skipn (Z.to_nat off) buf).

(** [view.getUint16(off, true)] and [view.getUint32(off, true)]. *)
Definition getUint16 (buf : list byte) (off : Z) : Z := le_combine (slice buf off 2).
Definition getUint32 (buf : list byte) (off : Z) : Z := le_combine (slice buf off 4).

(** [view.getInt16(off, true)]. *)
Definition getInt16 (buf : list byte) (off : Z) : Z :=
  JS.wrap_signed 16 (le_combine (slice buf off 2)).

(* ===================================================================== *)
(** ** The input and the output *)
(* ===================================================================== *)

(** The [AudioBuffer] handed to [writeWav]. [channelData] holds what
    [getChannelData(i)] returns: one [Float32Array] per channel, its
    elements read as numbers. *)
Module AudioBuffer.
Record t : Type := {
  sampleRate : Z;
  length : Z;
  numberOfChannels : Z;
  channelData : list (list JS.number)
}.
End AudioBuffer.

(** The invariant of the data model: a positive sample rate, as many
    channel arrays as [numberOfChannels], each of [length] samples. *)
Definition well_formed (b : AudioBuffer.t) : Prop :=
  0 < b.(AudioBuffer.sampleRate) /\
  0 <= b.(AudioBuffer.length) /\
  b.(AudioBuffer.numberOfChannels) = Z.of_nat (List.length b.(AudioBuffer.channelData)) /\
  Forall (fun ch => Z.of_nat (List.length ch) = b.(AudioBuffer.length))
         b.(AudioBuffer.channelData).

Record Blob : Type := {
  blob_bytes : list byte;
  blob_type : string
}.

(* ===================================================================== *)
(** ** The closure state of [writeWav] and its monad *)
(* ===================================================================== *)

Inductive exn : Type := RangeError | TypeError | IndexSizeError.

Inductive outcome (A : Type) : Type :=
| Returned (a : A)
| Thrown (e : exn)
| OutOfFuel.
Arguments Returned {A} a.
Arguments Thrown {A} e.
Arguments OutOfFuel {A}.

(** A record of the memory accesses of a run (ghost state, not part of the
    program): the element reads of the channel arrays, with the length of
    the array read, and the byte ranges written through the view. *)
Inductive access : Type :=
| ReadSample (chan idx len : Z)
| WriteBytes (off : Z) (n : nat).

(** The variables [writeWav] and its two helpers share. *)
Record closure : Type := {
  view : list byte;
  channels : list (list JS.number);
  offset : Z;
  pos : Z;
  log : list access
}.

Definition M (A : Type) : Type := closure -> outcome (A * closure).

Definition ret {A} (a : A) : M A := fun st => Returned (a, st).

Definition bind {A B} (m : M A) (k : A -> M B) : M B :=
  fun st =>
    match m st with
    | Returned (a, st') => k a st'
    | Thrown e => Thrown e
    | OutOfFuel => OutOfFuel
    end.

Declare Scope js_scope.
Delimit Scope js_scope with js.
Notation "x <- m ;; k" := (bind m (fun x => k))
  (at level 61, m at next level, right associativity) : js_scope.
Notation "m ;; k" := (bind m (fun _ => k))
  (at level 61, right associativity) : js_scope.
Local Open Scope js_scope.

Definition throw {A} (e : exn) : M A := fun _ => Thrown e.

Definition get_pos : M Z := fun st => Returned (pos st, st).
Definition get_offset : M Z := fun st => Returned (offset st, st).
Definition get_view : M (list byte) := fun st => Returned (view st, st).

Definition record (a : access) : M unit := fun st =>
  Returned (tt, {| view := view st; channels := channels st;
                   offset := offset st; pos := pos st; log := a :: log st |}).

Definition set_view (v : list byte) : M unit := fun st =>
  Returned (tt, {| view := v; channels := channels st;
                   offset := offset st; pos := pos st; log := log st |}).

Definition set_pos (p : Z) : M unit := fun st =>
  Returned (tt, {| view := view st; channels := channels st;
                   offset := offset st; pos := p; log := log st |}).

Definition set_offset (o : Z) : M unit := fun st =>
  Returned (tt, {| view := view st; channels := channels st;
                   offset := o; pos := pos st; log := log st |}).

(** [channels.push(a)] *)
Definition channels_push (a : list JS.number) : M unit := fun st =>
  Returned (tt, {| view := view st; channels := channels st ++ [a];
                   offset := offset st; pos := pos st; log := log st |}).

(** A [DataView] setter: the bytes are stored, or [RangeError] is thrown. *)
Definition store (off : Z) (n : nat) (w : option (list byte)) : M unit :=
  match w with
  | Some v => record (WriteBytes off n) ;; set_view v
  | None => throw RangeError
  end.

(** [for (i = lo; i < hi; i++) body(i)], for a body that assigns neither
    [i] nor the bound. *)
Fixpoint for_loop (n : nat) (i : Z) (body : Z -> M unit) : M unit :=
  match n with
  | O => ret tt
  | S n' => body i ;; for_loop n' (i + 1) body
  end.

Definition for_ (lo hi : Z) (body : Z -> M unit) : M unit :=
  for_loop (Z.to_nat (hi - lo)) lo body.

(** [while (cond) body], with fuel: the condition is tested first, so that
    [n] units of fuel allow [n] iterations. *)
Fixpoint while_ (fuel : nat) (cond : closure -> bool) (body : M unit) : M unit :=
  fun st =>
    if cond st then
      match fuel with
      | O => OutOfFuel
      | S fuel' =>
          match body st with
          | Returned (_, st') => while_ fuel' cond body st'
          | Thrown e => Thrown e
          | OutOfFuel => OutOfFuel
          end
      end
    else Returned (tt, st).

(* ===================================================================== *)
(** ** [writeWav] *)
(* ===================================================================== *)

(** [function setUint16(data) { view.setUint16(pos, data, true); pos += 2; }] *)
Definition setUint16 (data : Z) : M unit :=
  v <- get_view ;; p <- get_pos ;;
  store p 2 (DataView_setUint16 v p data) ;;
  set_pos (p + 2).

(** [function setUint32(data) { view.setUint32(pos, data, true); pos += 4; }] *)
Definition setUint32 (data : Z) : M unit :=
  v <- get_view ;; p <- get_pos ;;
  store p 4 (DataView_setUint32 v p data) ;;
  set_pos (p + 4).

(** [buffer.getChannelData(i)] *)
Definition getChannelData (buffer : AudioBuffer.t) (i : Z) : M (list JS.number) :=
  match nth_error buffer.(AudioBuffer.channelData) (Z.to_nat i) with
  | Some a => ret a
  | None => throw IndexSizeError
  end.

(** [channels[i][pos]]: reading an element of [undefined] throws; an index
    past the end of a typed array reads [undefined], which [Math.min]
    converts to NaN. *)
Definition read_sample (i : Z) : M JS.number := fun st =>
  match nth_error (channels st) (Z.to_nat i) with
  | None => Thrown TypeError
  | Some a =>
      (record (ReadSample i (pos st) (Z.of_nat (List.length a))) ;;
       ret (if pos st <? 0 then JS.NaN
            else nth (Z.to_nat (pos st)) a JS.NaN)) st
  end.

(** [Math.max(-1, Math.min(1, s))] *)
Definition clamp (s : JS.number) : JS.number :=
  JS.Math_max (JS.of_Z (-1)) (JS.Math_min (JS.of_Z 1) s).

(** [0.5 + sample < 0 ? sample * 32768 : sample * 32767] *)
Definition scale (sample : JS.number) : JS.number :=
  if JS.ltb (JS.add (JS.of_dyadic 1 (-1)) sample) (JS.of_Z 0)
  then JS.mul sample (JS.of_Z 32768)
  else JS.mul sample (JS.of_Z 32767).

(** The two assignments to [sample] (lines 74 and 75). *)
Definition convert_sample (s : JS.number) : Z :=
  JS.bitor0 (scale (clamp s)).

(** The body of the inner loop (lines 74 to 77). *)
Definition write_sample (i : Z) : M unit :=
  s <- read_sample i ;;
  let sample := convert_sample s in
  v <- get_view ;; o <- get_offset ;;
  store (44 + o) 2 (DataView_setInt16 v (44 + o) sample) ;;
  set_offset (o + 2).

(** Lines 51 to 66: the header. [length] is the allocated length. *)
Definition write_header (buffer : AudioBuffer.t) (length : Z) : M unit :=
  let numOfChan := buffer.(AudioBuffer.numberOfChannels) in
  setUint32 0x46464952 ;;                                      (* "RIFF" *)
  setUint32 (length - 8) ;;                                    (* file length - 8 *)
  setUint32 0x45564157 ;;                                      (* "WAVE" *)
  setUint32 0x20746d66 ;;                                      (* "fmt " chunk *)
  setUint32 16 ;;                                              (* length = 16 *)
  setUint16 1 ;;                                               (* PCM *)
  setUint16 numOfChan ;;
  setUint32 buffer.(AudioBuffer.sampleRate) ;;
  setUint32 (buffer.(AudioBuffer.sampleRate) * 2 * numOfChan) ;; (* avg. bytes/sec *)
  setUint16 (numOfChan * 2) ;;                                 (* block-align *)
  setUint16 16 ;;                                              (* 16-bit *)
  setUint32 0x61746164 ;;                                      (* "data" - chunk *)
  p <- get_pos ;; setUint32 (length - p - 4).                  (* chunk length *)

(** Lines 69 to 80: the channel arrays are collected, then the samples
    are written. The frame index of the [while] loop is [pos], the
    variable the header writer advanced. *)
Definition write_data (buffer : AudioBuffer.t) : M unit :=
  let numOfChan := buffer.(AudioBuffer.numberOfChannels) in
  for_ 0 buffer.(AudioBuffer.numberOfChannels)
       (fun i => a <- getChannelData buffer i ;; channels_push a) ;;
  while_ (Z.to_nat buffer.(AudioBuffer.length))
         (fun st => pos st <? buffer.(AudioBuffer.length))
         (for_ 0 numOfChan write_sample ;;
          p <- get_pos ;; set_pos (p + 1)).

Definition writeWav_body (buffer : AudioBuffer.t) : M unit :=
  let numOfChan := buffer.(AudioBuffer.numberOfChannels) in
  let length := buffer.(AudioBuffer.length) * numOfChan * 2 + 44 in
  write_header buffer length ;;
  write_data buffer.

(** The state in which the body starts: a zero-filled buffer of the
    computed length, no channels, both cursors at 0. *)
Definition initial (buffer : AudioBuffer.t) : closure :=
  let numOfChan := buffer.(AudioBuffer.numberOfChannels) in
  let length := buffer.(AudioBuffer.length) * numOfChan * 2 + 44 in
  {| view := new_ArrayBuffer length; channels := []; offset := 0; pos := 0;
     log := [] |}.

(** The run of [writeWav] up to its [return]: the final closure state. *)
Definition writeWav_run (buffer : AudioBuffer.t) : outcome closure :=
  match writeWav_body buffer (initial buffer) with
  | Returned (_, st) => Returned st
  | Thrown e => Thrown e
  | OutOfFuel => OutOfFuel
  end.

(** [return new Blob([bufferArr], { type: 'audio/wav' })] *)
Definition writeWav (buffer : AudioBuffer.t) : outcome Blob :=
  match writeWav_run buffer with
  | Returned st => Returned {| blob_bytes := view st; blob_type := "audio/wav" |}
  | Thrown e => Thrown e
  | OutOfFuel => OutOfFuel
  end.

(* ===================================================================== *)
(** ** Specification-level definitions *)
(* ===================================================================== *)

(** [wp m Q st]: the computation [m], started in [st], returns normally
    (it neither throws nor runs out of fuel) with a result and a final
    state that satisfy [Q]. *)
Definition wp {A} (m : M A) (Q : A -> closure -> Prop) (st : closure) : Prop :=
  match m st with
  | Returned (a, st') => Q a st'
  | Thrown _ | OutOfFuel => False
  end.

(** The allocated length, [buffer.length * numOfChan * 2 + 44]. *)
Definition total_length (b : AudioBuffer.t) : Z :=
  b.(AudioBuffer.length) * b.(AudioBuffer.numberOfChannels) * 2 + 44.

(** The 44 header bytes, field after field. *)
Definition header_bytes (b : AudioBuffer.t) : list byte :=
  le_split 4 0x46464952 ++
  le_split 4 (total_length b - 8) ++
  le_split 4 0x45564157 ++
  le_split 4 0x20746d66 ++
  le_split 4 16 ++
  le_split 2 1 ++
  le_split 2 b.(AudioBuffer.numberOfChannels) ++
  le_split 4 b.(AudioBuffer.sampleRate) ++
  le_split 4 (b.(AudioBuffer.sampleRate) * 2 * b.(AudioBuffer.numberOfChannels)) ++
  le_split 2 (b.(AudioBuffer.numberOfChannels) * 2) ++
  le_split 2 16 ++
  le_split 4 0x61746164 ++
  le_split 4 (total_length b - 44).

(** [channels[c][p]] of the input. *)
Definition sample_at (b : AudioBuffer.t) (c p : nat) : JS.number :=
  nth p (nth c b.(AudioBuffer.channelData) []) JS.NaN.

(** The two bytes [setInt16] stores for a sample. *)
Definition sample_bytes (s : JS.number) : list byte :=
  le_split 2 (convert_sample s).

(** The bytes of frame [p]: the samples of all channels, in channel order. *)
Definition frame_bytes (b : AudioBuffer.t) (p : nat) : list byte :=
  flat_map (fun c => sample_bytes (sample_at b c p))
           (seq 0 (List.length b.(AudioBuffer.channelData))).

(** The frames the data loop converts: its index starts at the value the
    header writer left in [pos], which is 44. *)
Definition frames_converted (b : AudioBuffer.t) : list nat :=
  seq 44 (Z.to_nat b.(AudioBuffer.length) - 44).

(** The bytes the data loop writes, in the order it writes them. *)
Definition data_written (b : AudioBuffer.t) : list byte :=
  flat_map (frame_bytes b) (frames_converted b).

(** The data region of an output: everything from byte 44 on. *)
Definition data_region (bytes : list byte) : list byte := skipn 44 bytes.

(** The interleaving the specification describes: every frame from 0 on. *)
Definition data_interleaved (b : AudioBuffer.t) : list byte :=
  flat_map (frame_bytes b) (seq 0 (Z.to_nat b.(AudioBuffer.length))).

(** An access that stays inside the array or buffer it touches, for an
    output buffer of [n] bytes. *)
Definition in_bounds (n : Z) (a : access) : Prop :=
  match a with
  | ReadSample _ idx len => 0 <= idx < len
  | WriteBytes off k => 0 <= off /\ off + Z.of_nat k <= n
  end.

(** The number of bytes a run wrote into the data region. *)
Definition data_bytes_written (l : list access) : Z :=
  fold_right (fun a acc =>
                match a with
                | WriteBytes off k => if 44 <=? off then Z.of_nat k + acc else acc
                | ReadSample _ _ _ => acc
                end) 0 l.

(** The accesses of the header writer, latest first. *)
Definition header_log : list access :=
  [WriteBytes 40 4; WriteBytes 36 4; WriteBytes 34 2; WriteBytes 32 2;
   WriteBytes 28 4; WriteBytes 24 4; WriteBytes 22 2; WriteBytes 20 2;
   WriteBytes 16 4; WriteBytes 12 4; WriteBytes 8 4; WriteBytes 4 4;
   WriteBytes 0 4].

(** The state the header writer leaves. *)
Definition after_header (b : AudioBuffer.t) : closure :=
  {| view := header_bytes b ++ repeat Byte.x00 (Z.to_nat (total_length b - 44));
     channels := []; offset := 0; pos := 44; log := header_log |}.

(** The state the collection of the channel arrays leaves. *)
Definition after_channels (b : AudioBuffer.t) : closure :=
  {| view := view (after_header b); channels := b.(AudioBuffer.channelData);
     offset := 0; pos := 44; log := header_log |}.

(** The invariant of the data loops: [k] frames, starting with frame 44,
    and the first [j] samples of the next frame have been written. *)
Definition data_inv (b : AudioBuffer.t) (k j : nat) (st : closure) : Prop :=
  let nch := List.length b.(AudioBuffer.channelData) in
  view st =
    header_bytes b ++
    (flat_map (frame_bytes b) (seq 44 k) ++
     flat_map (fun c => sample_bytes (sample_at b c (44 + k))) (seq 0 j)) ++
    repeat Byte.x00 (Z.to_nat (total_length b - 44) - 2 * (nch * k + j)) /\
  channels st = b.(AudioBuffer.channelData) /\
  offset st = Z.of_nat (2 * (nch * k + j)) /\
  pos st = 44 + Z.of_nat k /\
  Forall (in_bounds (total_length b)) (log st) /\
  data_bytes_written (log st) = offset st.

(** The number of data bytes the loop leaves as allocated. *)
Definition unwritten (b : AudioBuffer.t) : nat :=
  Z.to_nat (total_length b - 44) - List.length (data_written b).

(** The bytes of the output, as the run produces them. *)
Definition wav_bytes (b : AudioBuffer.t) : list byte :=
  header_bytes b ++ data_written b ++ repeat Byte.x00 (unwritten b).

(** A number of magnitude at most 1, read off its representation
    [m * 2^e]. *)
Definition unit_range (x : JS.number) : Prop :=
  match x with
  | S754_zero _ => True
  | S754_finite _ m e => e < 0 /\ Z.pos m <= 2 ^ (- e)
  | S754_infinity _ | S754_nan => False
  end.

(** The sign of a number: [true] for the negative numbers and [-0]. *)
Definition sign_bit (x : JS.number) : bool :=
  match x with
  | S754_zero s | S754_infinity s | S754_finite s _ _ => s
  | S754_nan => false
  end.

(* ===================================================================== *)
(** ** Sample values and buffers used as instances *)
(* ===================================================================== *)

Definition num_zero : JS.number := JS.of_Z 0.
Definition num_half : JS.number := JS.of_dyadic 1 (-1).
Definition num_neg_half : JS.number := JS.of_dyadic (-1) (-1).
Definition num_neg_quarter : JS.number := JS.of_dyadic (-1) (-2).
Definition num_neg_three_quarters : JS.number := JS.of_dyadic (-3) (-2).
Definition num_two : JS.number := JS.of_Z 2.

Definition stereo_two_frames : AudioBuffer.t :=
  {| AudioBuffer.sampleRate := 44100;
     AudioBuffer.length := 2;
     AudioBuffer.numberOfChannels := 2;
     AudioBuffer.channelData := [[num_zero; num_half]; [num_neg_half; num_zero]] |}.

Definition mono_one_frame : AudioBuffer.t :=
  {| AudioBuffer.sampleRate := 44100;
     AudioBuffer.length := 1;
     AudioBuffer.numberOfChannels := 1;
     AudioBuffer.channelData := [[num_half]] |}.

Definition mono_silence : AudioBuffer.t :=
  {| AudioBuffer.sampleRate := 8000;
     AudioBuffer.length := 46;
     AudioBuffer.numberOfChannels := 1;
     AudioBuffer.channelData := [repeat num_zero 46] |}.

(** Silence written with both zeros: 44 frames of [-0], then [+0], [-0]. *)
Definition mono_silence_mixed : AudioBuffer.t :=
  {| AudioBuffer.sampleRate := 8000;
     AudioBuffer.length := 46;
     AudioBuffer.numberOfChannels := 1;
     AudioBuffer.channelData :=
       [repeat (S754_zero true) 44 ++ [S754_zero false; S754_zero true]] |}.

(** Two buffers with the same content: the same rate, length and channel
    count, and at every position of every channel the same value. *)
Definition same_content (b1 b2 : AudioBuffer.t) : Prop :=
  b1.(AudioBuffer.sampleRate) = b2.(AudioBuffer.sampleRate) /\
  b1.(AudioBuffer.length) = b2.(AudioBuffer.length) /\
  b1.(AudioBuffer.numberOfChannels) = b2.(AudioBuffer.numberOfChannels) /\
  Forall2 (Forall2 (fun x y => JS.SameValueZero x y = true))
          b1.(AudioBuffer.channelData) b2.(AudioBuffer.channelData).

Definition mono_no_frame : AudioBuffer.t :=
  {| AudioBuffer.sampleRate := 44100;
     AudioBuffer.length := 0;
     AudioBuffer.numberOfChannels := 1;
     AudioBuffer.channelData := [[]] |}.


(** The rule the specification's rationale states: the factor is chosen
    by the sign of the clamped sample. *)
Definition scale_by_sign (sample : JS.number) : JS.number :=
  if JS.ltb sample (JS.of_Z 0)
  then JS.mul sample (JS.of_Z 32768)
  else JS.mul sample (JS.of_Z 32767).

(** Two buffers that differ at most in their first 44 frames. *)
Definition same_from_frame_44 (b1 b2 : AudioBuffer.t) : Prop :=
  b1.(AudioBuffer.sampleRate) = b2.(AudioBuffer.sampleRate) /\
  b1.(AudioBuffer.length) = b2.(AudioBuffer.length) /\
  b1.(AudioBuffer.numberOfChannels) = b2.(AudioBuffer.numberOfChannels) /\
  forall c p : nat, (44 <= p)%nat -> sample_at b1 c p = sample_at b2 c p.

Definition mono_silence_but_first : AudioBuffer.t :=
  {| AudioBuffer.sampleRate := 8000;
     AudioBuffer.length := 46;
     AudioBuffer.numberOfChannels := 1;
     AudioBuffer.channelData := [num_half :: repeat num_zero 45] |}.

Definition mono_late_samples : AudioBuffer.t :=
  {| AudioBuffer.sampleRate := 8000;
     AudioBuffer.length := 46;
     AudioBuffer.numberOfChannels := 1;
     AudioBuffer.channelData :=
       [repeat num_zero 44 ++ [num_half; num_neg_three_quarters]] |}.

(** The header fields hold their values without wrap-around. *)
Definition header_fits (b : AudioBuffer.t) : Prop :=
  total_length b < 2 ^ 32 /\
  b.(AudioBuffer.sampleRate) < 2 ^ 32 /\
  b.(AudioBuffer.sampleRate) * 2 * b.(AudioBuffer.numberOfChannels) < 2 ^ 32 /\
  b.(AudioBuffer.numberOfChannels) * 2 < 2 ^ 16.

(** A closure state with a buffer of eight bytes and the cursor at 2. *)
Definition small_closure : closure :=
  {| view := new_ArrayBuffer 8; channels := []; offset := 0; pos := 2;
     log := [] |}.

(** A closure state whose cursor leaves a single byte. *)
Definition full_closure : closure :=
  {| view := new_ArrayBuffer 8; channels := []; offset := 0; pos := 7;
     log := [] |}.

(* ===================================================================== *)
(** ** The string helpers: [getMimeType], [formatTime], [fileToBase64] *)
(* ===================================================================== *)

(** Strings are sequences of code units below 256. *)

(** [s.split(sep)] for a separator of one character: the segments between
    the occurrences of [sep], in order; never an empty array. *)
Fixpoint split (sep : ascii) (s : string) : list string :=
  match s with
  | EmptyString => [EmptyString]
  | String c s' =>
      if Ascii.eqb c sep then EmptyString :: split sep s'
      else match split sep s' with
           | x :: r => String c x :: r
           | [] => [String c EmptyString]
           end
  end.

(** [a.pop()]: the last element, [undefined] for an empty array. *)
Definition pop (a : list string) : option string :=
  match a with
  | [] => None
  | x :: r => Some (last r x)
  end.

(** [toLowerCase] on one code unit below 256: the letters A to Z and the
    capital letters of Latin-1 (U+00C0 to U+00DE, without the
    multiplication sign U+00D7) are moved 32 places up. *)
Definition toLowerCase_char (c : ascii) : ascii :=
  let n := N_of_ascii c in
  if ((65 <=? n) && (n <=? 90)
      || (192 <=? n) && (n <=? 222) && negb (n =? 215))%N
  then ascii_of_N (n + 32) else c.

Fixpoint toLowerCase (s : string) : string :=
  match s with
  | EmptyString => EmptyString
  | String c s' => String (toLowerCase_char c) (toLowerCase s')
  end.

(** [getMimeType]: [ext] is [undefined] when [pop] returns [undefined],
    and then the [switch] takes its default. *)
Definition getMimeType (filename : string) : string :=
  let ext := option_map toLowerCase (pop (split "." filename)) in
  match ext with
  | None => "application/octet-stream"
  | Some e =>
      if String.eqb e "mp3" then "audio/mpeg"
      else if String.eqb e "wav" then "audio/wav"
      else if String.eqb e "ogg" then "audio/ogg"
      else if String.eqb e "mp4" then "video/mp4"
      else if String.eqb e "webm" then "video/webm"
      else if String.eqb e "mov" then "video/quicktime"
      else "application/octet-stream"
  end%string.

(** Whether the character [c] occurs in [s]. *)
Fixpoint occurs (c : ascii) (s : string) : bool :=
  match s with
  | EmptyString => false
  | String c' s' => Ascii.eqb c' c || occurs c s'
  end.

(** What [reader.result] holds when [onload] fires: a string (the data
    URL) or something else. *)
Inductive reader_result : Type :=
| ResultString (s : string)
| ResultOther.

(** How the promise of [fileToBase64] is settled: resolved with a value
    ([None] for [undefined]) or rejected. *)
Inductive settled : Type :=
| Resolved (v : option string)
| Rejected (message : string).

(** The [onload] handler of [fileToBase64] (lines 5 to 13). *)
Definition fileToBase64_onload (result : reader_result) : settled :=
  match result with
  | ResultString s => Resolved (nth_error (split "," s) 1)
  | ResultOther => Rejected "无法将文件转换为 Base64 编码"
  end.

(** [n.toString()] for an integer [n]: its decimal digits, after a minus
    sign when it is negative. *)
Definition toString (n : Z) : string := NilZero.string_of_int (Z.to_int n).

(** [s.padStart(n, c)] for a filler of one character. *)
Definition padStart (n : nat) (c : ascii) (s : string) : string :=
  string_of_list_ascii (repeat c (n - String.length s)) ++ s.

(** [formatTime], for a number of seconds that is an integer (the caller
    passes a counter of seconds): on integers of magnitude below 2^53
    [Math.floor(seconds / 60)] is the floor of the quotient and
    [seconds % 60] is the remainder with the sign of [seconds]. *)
Definition formatTime (seconds : Z) : string :=
  let mins := seconds / 60 in
  let secs := Z.rem seconds 60 in
  (padStart 2 "0" (toString mins) ++ ":" ++ padStart 2 "0" (toString secs))%string.

(** The character of a decimal digit. *)
Definition digit (d : Z) : ascii := ascii_of_N (48 + Z.to_N d).

(** The text [MM:SS] of the two-digit fields [m] and [s]. *)
Definition mm_ss (m s : Z) : string :=
  String (digit (m / 10)) (String (digit (m mod 10))
    (String ":" (String (digit (s / 10)) (String (digit (s mod 10)) EmptyString)))).

(** Reading a field back: the integer a decimal text denotes. *)
Definition parse_field (s : string) : option Z :=
  option_map Z.of_int (NilZero.int_of_string s).

(** Reading a time back: the seconds the text [M:S] denotes. *)
Definition parse_time (s : string) : option Z :=
  match split ":" s with
  | [m; r] =>
      match parse_field m, parse_field r with
      | Some m', Some r' => Some (60 * m' + r')
      | _, _ => None
      end
  | _ => None
  end.

(* ===================================================================== *)
(** ** Reasoning about computations *)
(* ===================================================================== *)

Section WP.
Context {A B : Type}.

Lemma wp_ret (a : A) (Q : A -> closure -> Prop) st :
  Q a st -> wp (ret a) Q st.
Proof. intro H; exact H. Qed.

Lemma wp_bind (m : M A) (k : A -> M B) (Q : B -> closure -> Prop) st :
  wp m (fun a st' => wp (k a) Q st') st -> wp (bind m k) Q st.
Proof.
  unfold wp, bind. destruct (m st) as [[a st']| |]; auto.
Qed.

Lemma wp_conseq (m : M A) (Q Q' : A -> closure -> Prop) st :
  wp m Q st -> (forall a st', Q a st' -> Q' a st') -> wp m Q' st.
Proof.
  unfold wp. destruct (m st) as [[a st']| |]; auto.
Qed.

Lemma wp_returned (m : M A) (Q : A -> closure -> Prop) st :
  wp m Q st -> exists a st', m st = Returned (a, st') /\ Q a st'.
Proof.
  unfold wp. destruct (m st) as [[a st']| |]; try contradiction.
  intro H. exists a, st'. auto.
Qed.

Lemma returned_wp (m : M A) (Q : A -> closure -> Prop) st a st' :
  m st = Returned (a, st') -> Q a st' -> wp m Q st.
Proof. unfold wp. intros -> H. exact H. Qed.
End WP.

(** A counting loop maintains an invariant indexed by its counter. *)
Lemma wp_for_loop (I : Z -> closure -> Prop) (body : Z -> M unit) :
  forall n lo st,
    I lo st ->
    (forall i st', lo <= i < lo + Z.of_nat n -> I i st' ->
                   wp (body i) (fun _ => I (i + 1)) st') ->
    wp (for_loop n lo body) (fun _ => I (lo + Z.of_nat n)) st.
Proof.
  induction n as [|n IH]; intros lo st HI Hbody.
  - cbn [for_loop]. apply wp_ret. replace (lo + Z.of_nat 0) with lo by lia. exact HI.
  - cbn [for_loop]. apply wp_bind.
    eapply wp_conseq.
    + apply Hbody; [lia | exact HI].
    + intros u st' HI'. cbv beta in *.
      replace (lo + Z.of_nat (S n)) with ((lo + 1) + Z.of_nat n) by lia.
      apply IH; [exact HI'|].
      intros i st'' Hi. apply Hbody. lia.
Qed.

Lemma wp_for (I : Z -> closure -> Prop) (body : Z -> M unit) lo hi st :
  lo <= hi ->
  I lo st ->
  (forall i st', lo <= i < hi -> I i st' ->
                 wp (body i) (fun _ => I (i + 1)) st') ->
  wp (for_ lo hi body) (fun _ => I hi) st.
Proof.
  intros Hle HI Hbody. unfold for_.
  assert (E : lo + Z.of_nat (Z.to_nat (hi - lo)) = hi) by lia.
  eapply wp_conseq.
  - apply (wp_for_loop I); [exact HI|].
    intros i st' Hi. apply Hbody. lia.
  - intros u st' H. cbv beta in H. rewrite E in H. exact H.
Qed.

(** A [while] loop whose body decreases a measure bounded by the fuel
    terminates normally, with the invariant and the negated condition. *)
Lemma wp_while (I : closure -> Prop) (measure : closure -> nat)
      (cond : closure -> bool) (body : M unit) :
  (forall st, I st -> cond st = true ->
              wp body (fun _ st' => I st' /\ (measure st' < measure st)%nat) st) ->
  forall fuel st,
    I st -> (measure st <= fuel)%nat ->
    wp (while_ fuel cond body) (fun _ st' => I st' /\ cond st' = false) st.
Proof.
  intros Hbody. induction fuel as [|fuel IH]; intros st HI Hm.
  - unfold wp; simpl. destruct (cond st) eqn:Hc.
    + specialize (Hbody st HI Hc). apply wp_returned in Hbody.
      destruct Hbody as (_ & st' & _ & _ & Hlt). lia.
    + auto.
  - unfold wp; simpl. destruct (cond st) eqn:Hc.
    + specialize (Hbody st HI Hc). apply wp_returned in Hbody.
      destruct Hbody as ([] & st' & -> & HI' & Hlt).
      apply (IH st' HI'). lia.
    + auto.
Qed.

(* ===================================================================== *)
(** ** Byte buffers *)
(* ===================================================================== *)

Lemma write_bytes_app (pre old post bs : list byte) (off : Z) :
  off = Z.of_nat (List.length pre) ->
  List.length old = List.length bs ->
  write_bytes (pre ++ old ++ post) off bs = Some (pre ++ bs ++ post).
Proof.
  intros -> Hlen. unfold write_bytes.
  rewrite !length_app, Nat2Z.id.
  replace ((0 <=? Z.of_nat (List.length pre)) &&
           (Z.of_nat (List.length pre) + Z.of_nat (List.length bs) <=?
            Z.of_nat (List.length pre + (List.length old + List.length post))))
    with true
    by (symmetry; apply andb_true_intro; split; apply Z.leb_le; lia).
  rewrite firstn_app, firstn_all, Nat.sub_diag, firstn_0, app_nil_r.
  rewrite skipn_app, skipn_all2 by lia. simpl.
  replace (List.length pre + List.length bs - List.length pre)%nat
    with (List.length old) by lia.
  rewrite skipn_app, skipn_all, Nat.sub_diag, skipn_0. reflexivity.
Qed.

Lemma write_bytes_length (buf bs out : list byte) (off : Z) :
  write_bytes buf off bs = Some out -> List.length out = List.length buf.
Proof.
  unfold write_bytes.
  destruct ((0 <=? off) && _) eqn:E; [|discriminate].
  apply andb_prop in E. destruct E as [E1 E2].
  apply Z.leb_le in E1, E2. intro H; injection H as <-.
  rewrite !length_app, length_firstn, length_skipn. lia.
Qed.

Lemma new_ArrayBuffer_split (n : Z) :
  0 <= n ->
  new_ArrayBuffer (n + 44) = repeat Byte.x00 44 ++ repeat Byte.x00 (Z.to_nat n).
Proof.
  intro Hn. unfold new_ArrayBuffer.
  replace (Z.to_nat (n + 44)) with (44 + Z.to_nat n)%nat by lia.
  apply repeat_app.
Qed.

Lemma slice_app_exact (pre mid post : list byte) (off : Z) (n : nat) :
  off = Z.of_nat (List.length pre) -> n = List.length mid ->
  slice (pre ++ mid ++ post) off n = mid.
Proof.
  intros -> ->. unfold slice. rewrite Nat2Z.id.
  rewrite skipn_app, skipn_all, Nat.sub_diag, skipn_0. simpl.
  rewrite firstn_app, firstn_all, Nat.sub_diag, firstn_0, app_nil_r.
  reflexivity.
Qed.

(* ===================================================================== *)
(** ** The header writer *)
(* ===================================================================== *)

Lemma setUint32_app (d : Z) (pre old post : list byte) (st : closure) :
  view st = pre ++ old ++ post ->
  pos st = Z.of_nat (List.length pre) ->
  List.length old = 4%nat ->
  setUint32 d st =
  Returned (tt, {| view := (pre ++ le_split 4 d) ++ post;
                   channels := channels st; offset := offset st;
                   pos := pos st + 4;
                   log := WriteBytes (pos st) 4 :: log st |}).
Proof.
  intros Hv Hp Hl.
  unfold setUint32, bind, get_view, get_pos, store, DataView_setUint32.
  rewrite Hv, (write_bytes_app pre old post _ _ Hp)
    by (rewrite length_le_split; exact Hl).
  unfold bind, record, set_view, set_pos. cbn.
  rewrite <- app_assoc. reflexivity.
Qed.

Lemma setUint16_app (d : Z) (pre old post : list byte) (st : closure) :
  view st = pre ++ old ++ post ->
  pos st = Z.of_nat (List.length pre) ->
  List.length old = 2%nat ->
  setUint16 d st =
  Returned (tt, {| view := (pre ++ le_split 2 d) ++ post;
                   channels := channels st; offset := offset st;
                   pos := pos st + 2;
                   log := WriteBytes (pos st) 2 :: log st |}).
Proof.
  intros Hv Hp Hl.
  unfold setUint16, bind, get_view, get_pos, store, DataView_setUint16.
  rewrite Hv, (write_bytes_app pre old post _ _ Hp)
    by (rewrite length_le_split; exact Hl).
  unfold bind, record, set_view, set_pos. cbn.
  rewrite <- app_assoc. reflexivity.
Qed.

Lemma header_zeros :
  repeat Byte.x00 44 =
  repeat Byte.x00 4 ++ repeat Byte.x00 4 ++ repeat Byte.x00 4 ++
  repeat Byte.x00 4 ++ repeat Byte.x00 4 ++ repeat Byte.x00 2 ++
  repeat Byte.x00 2 ++ repeat Byte.x00 4 ++ repeat Byte.x00 4 ++
  repeat Byte.x00 2 ++ repeat Byte.x00 2 ++ repeat Byte.x00 4 ++
  repeat Byte.x00 4.
Proof. reflexivity. Qed.

Ltac header_field lem :=
  unfold bind at 1;
  erewrite lem;
  [ cbn [view channels offset pos log]
  | cbn [view]; reflexivity
  | cbn [pos]; rewrite ?length_app, ?length_le_split; reflexivity
  | reflexivity ].

Lemma write_header_from (b : AudioBuffer.t) (rest : list byte) (st : closure) :
  view st = repeat Byte.x00 44 ++ rest ->
  pos st = 0 ->
  write_header b (total_length b) st =
  Returned (tt, {| view := header_bytes b ++ rest; channels := channels st;
                   offset := offset st; pos := 44;
                   log := header_log ++ log st |}).
Proof.
  intros Hv Hp. unfold write_header.
  rewrite header_zeros in Hv. rewrite <- !app_assoc in Hv.
  change (repeat Byte.x00 4 ++ ?r) with ([] ++ repeat Byte.x00 4 ++ r) in Hv at 1.
  unfold bind at 1.
  erewrite setUint32_app; [ | exact Hv | exact Hp | reflexivity].
  rewrite Hp.
  do 4 header_field setUint32_app.
  do 2 header_field setUint16_app.
  do 2 header_field setUint32_app.
  do 2 header_field setUint16_app.
  header_field setUint32_app.
  unfold bind at 1, get_pos at 1. cbn [pos].
  erewrite setUint32_app;
    [ | cbn [view]; reflexivity
      | cbn [pos]; rewrite ?length_app, ?length_le_split; reflexivity
      | reflexivity ].
  cbn [view channels offset pos log].
  replace (total_length b - (0 + 4 + 4 + 4 + 4 + 4 + 2 + 2 + 4 + 4 + 2 + 2 + 4) - 4)
    with (total_length b - 44) by lia.
  unfold header_bytes, header_log. rewrite <- !app_assoc.
  reflexivity.
Qed.

Lemma write_header_run (b : AudioBuffer.t) :
  0 <= total_length b - 44 ->
  write_header b (total_length b) (initial b) = Returned (tt, after_header b).
Proof.
  intro Hn.
  rewrite (write_header_from b (repeat Byte.x00 (Z.to_nat (total_length b - 44)))).
  - reflexivity.
  - unfold initial. cbn [view]. fold (total_length b).
    rewrite <- (new_ArrayBuffer_split _ Hn). f_equal. lia.
  - reflexivity.
Qed.


(* ===================================================================== *)
(** ** The data writer *)
(* ===================================================================== *)

Lemma length_flat_map_const {A} (f : A -> list byte) (n : nat) (l : list A) :
  (forall x, List.length (f x) = n) ->
  List.length (flat_map f l) = (n * List.length l)%nat.
Proof.
  intro Hf. induction l as [|x l IH]; simpl.
  - lia.
  - rewrite length_app, Hf, IH. lia.
Qed.

Lemma length_header_bytes (b : AudioBuffer.t) :
  List.length (header_bytes b) = 44%nat.
Proof.
  unfold header_bytes. rewrite !length_app, !length_le_split. reflexivity.
Qed.

Lemma length_sample_bytes (s : JS.number) : List.length (sample_bytes s) = 2%nat.
Proof. apply length_le_split. Qed.

Lemma length_frame_bytes (b : AudioBuffer.t) (p : nat) :
  List.length (frame_bytes b p) = (2 * List.length b.(AudioBuffer.channelData))%nat.
Proof.
  unfold frame_bytes.
  rewrite (length_flat_map_const _ 2) by (intro; apply length_sample_bytes).
  rewrite length_seq. reflexivity.
Qed.

Lemma length_data_written (b : AudioBuffer.t) :
  List.length (data_written b) =
  (2 * List.length b.(AudioBuffer.channelData)
     * (Z.to_nat b.(AudioBuffer.length) - 44))%nat.
Proof.
  unfold data_written, frames_converted.
  rewrite (length_flat_map_const _ (2 * List.length b.(AudioBuffer.channelData)))
    by (intro; apply length_frame_bytes).
  rewrite length_seq. reflexivity.
Qed.

Lemma collect_channels_run (b : AudioBuffer.t) :
  well_formed b ->
  wp (for_ 0 b.(AudioBuffer.numberOfChannels)
           (fun i => a <- getChannelData b i ;; channels_push a))
     (fun _ st => st = after_channels b) (after_header b).
Proof.
  intros (_ & _ & Hn & _).
  pose (I := fun (i : Z) (st : closure) =>
     st = {| view := view (after_header b);
             channels := firstn (Z.to_nat i) b.(AudioBuffer.channelData);
             offset := 0; pos := 44; log := header_log |}).
  eapply wp_conseq.
  - apply (wp_for I); [lia | reflexivity |].
    intros i st' Hi ->. unfold I.
    destruct (nth_error (AudioBuffer.channelData b) (Z.to_nat i)) as [a|] eqn:E.
    + unfold wp, bind, getChannelData. rewrite E.
      unfold ret, channels_push. cbn [view channels offset pos log].
      replace (Z.to_nat (i + 1)) with (S (Z.to_nat i)) by lia.
      f_equal.
      clear -E. revert E. generalize (AudioBuffer.channelData b) as l.
      induction (Z.to_nat i) as [|n IH]; intros [|x l] E; try discriminate.
      * injection E as ->. reflexivity.
      * cbn [firstn app nth_error] in *. f_equal. apply IH. exact E.
    + apply nth_error_None in E. lia.
  - intros u st' ->. unfold after_channels. f_equal.
    apply firstn_all2. lia.
Qed.

Lemma zeros_room (b : AudioBuffer.t) (k j : nat) :
  well_formed b ->
  (j < List.length b.(AudioBuffer.channelData))%nat ->
  44 + Z.of_nat k < b.(AudioBuffer.length) ->
  (2 * (List.length b.(AudioBuffer.channelData) * k + j) + 2
   <= Z.to_nat (total_length b - 44))%nat.
Proof.
  intros (_ & Hl & Hn & _) Hj Hk. unfold total_length. rewrite Hn.
  set (n := List.length (AudioBuffer.channelData b)) in *.
  assert (0 <= AudioBuffer.length b * Z.of_nat n * 2) by nia.
  apply Nat2Z.inj_le. rewrite Z2Nat.id by lia. nia.
Qed.

Lemma sample_at_nth (b : AudioBuffer.t) (c p : nat) (a : list JS.number) :
  nth_error b.(AudioBuffer.channelData) c = Some a ->
  sample_at b c p = nth p a JS.NaN.
Proof.
  intro E. unfold sample_at. rewrite (nth_error_nth _ _ _ E). reflexivity.
Qed.

Lemma write_sample_step (b : AudioBuffer.t) (k j : nat) (st : closure) :
  well_formed b ->
  (j < List.length b.(AudioBuffer.channelData))%nat ->
  44 + Z.of_nat k < b.(AudioBuffer.length) ->
  data_inv b k j st ->
  wp (write_sample (Z.of_nat j)) (fun _ st' => data_inv b k (S j) st') st.
Proof.
  intros Hwf Hj Hk (Hv & Hc & Ho & Hp & Hlog & Hcnt).
  pose proof (zeros_room b k j Hwf Hj Hk) as Hroom.
  destruct Hwf as (_ & Hl & Hn & Hall).
  destruct (nth_error (AudioBuffer.channelData b) j) as [a|] eqn:E;
    [| apply nth_error_None in E; lia].
  assert (Ha : Z.of_nat (List.length a) = AudioBuffer.length b).
  { rewrite Forall_forall in Hall. apply Hall. eapply nth_error_In; eauto. }
  set (nch := List.length (AudioBuffer.channelData b)) in *.
  set (W := flat_map (frame_bytes b) (seq 44 k) ++
            flat_map (fun c => sample_bytes (sample_at b c (44 + k))) (seq 0 j)) in *.
  assert (HW : List.length W = (2 * (nch * k + j))%nat).
  { unfold W. rewrite length_app.
    rewrite (length_flat_map_const _ (2 * nch)) by (intro; apply length_frame_bytes).
    rewrite (length_flat_map_const _ 2) by (intro; apply length_sample_bytes).
    rewrite !length_seq. lia. }
  unfold wp, write_sample, bind, read_sample.
  rewrite Hc, Nat2Z.id, E.
  unfold bind, record, ret, get_view, get_offset, store, DataView_setInt16.
  cbn [view channels offset pos log].
  rewrite Hv.
  replace (Z.to_nat (total_length b - 44) - 2 * (nch * k + j))%nat
    with (2 + (Z.to_nat (total_length b - 44) - 2 * (nch * k + S j)))%nat by lia.
  rewrite repeat_app, (app_assoc (header_bytes b) W).
  rewrite (write_bytes_app (header_bytes b ++ W));
    [ | rewrite length_app, length_header_bytes, HW, Ho; lia
      | rewrite length_le_split; reflexivity ].
  unfold bind, record, set_view, set_offset.
  cbn [view channels offset pos log].
  assert (Hs : (if pos st <? 0 then JS.NaN else nth (Z.to_nat (pos st)) a JS.NaN)
               = sample_at b j (44 + k)).
  { rewrite (sample_at_nth b j _ a E), Hp.
    replace (44 + Z.of_nat k <? 0) with false by (symmetry; apply Z.ltb_ge; lia).
    f_equal. lia. }
  rewrite Hs.
  unfold data_inv. cbn [view channels offset pos log]. fold nch.
  repeat split.
  - rewrite seq_S, flat_map_app, Nat.add_0_l. cbn [flat_map]. rewrite app_nil_r.
    unfold W, sample_bytes. rewrite <- !app_assoc. reflexivity.
  - exact Hc.
  - rewrite Ho. lia.
  - exact Hp.
  - constructor; [|constructor; [|exact Hlog]]; cbn [in_bounds].
    + rewrite Ho. unfold total_length in *. lia.
    + lia.
  - cbn [data_bytes_written fold_right].
    replace (44 <=? 44 + offset st) with true by (symmetry; apply Z.leb_le; lia).
    fold (data_bytes_written (log st)). rewrite Hcnt. lia.
Qed.


Lemma frame_step (b : AudioBuffer.t) (k : nat) (st : closure) :
  well_formed b ->
  44 + Z.of_nat k < b.(AudioBuffer.length) ->
  data_inv b k 0 st ->
  wp (for_ 0 b.(AudioBuffer.numberOfChannels) write_sample ;;
      p <- get_pos ;; set_pos (p + 1))
     (fun _ st' => data_inv b (S k) 0 st') st.
Proof.
  intros Hwf Hk Hinv.
  assert (Hn : AudioBuffer.numberOfChannels b =
               Z.of_nat (List.length (AudioBuffer.channelData b)))
    by (destruct Hwf as (_ & _ & Hn & _); exact Hn).
  apply wp_bind.
  eapply wp_conseq.
  - apply (wp_for (fun i st' => data_inv b k (Z.to_nat i) st')); [lia | exact Hinv |].
    intros i st' Hi Hinv'.
    replace (Z.to_nat (i + 1)) with (S (Z.to_nat i)) by lia.
    rewrite <- (Z2Nat.id i) at 1 by lia.
    apply write_sample_step; auto. lia.
  - intros u st' (Hv & Hc & Ho & Hp & Hlog & Hcnt).
    rewrite Hn, Nat2Z.id in *.
    unfold wp, bind, get_pos, set_pos, data_inv.
    cbn [view channels offset pos log].
    set (nch := List.length (AudioBuffer.channelData b)) in *.
    repeat split; auto.
    + rewrite Hv. f_equal.
      rewrite seq_S, flat_map_app. cbn [flat_map seq]. rewrite !app_nil_r.
      unfold frame_bytes. fold nch.
      do 2 f_equal. lia.
    + rewrite Ho. f_equal. lia.
    + lia.
Qed.

Lemma header_log_in_bounds (n : Z) :
  44 <= n -> Forall (in_bounds n) header_log.
Proof.
  intro Hn. unfold header_log.
  repeat (constructor; [cbn [in_bounds]; lia|]). constructor.
Qed.

Lemma data_inv_init (b : AudioBuffer.t) :
  well_formed b -> data_inv b 0 0 (after_channels b).
Proof.
  intros (_ & Hl & Hn & _). unfold data_inv, after_channels, after_header.
  cbn [view channels offset pos log seq flat_map app].
  rewrite Nat.mul_0_r, Nat.sub_0_r.
  repeat split; try reflexivity.
  apply header_log_in_bounds. unfold total_length. nia.
Qed.

Lemma data_loop_run (b : AudioBuffer.t) :
  well_formed b ->
  wp (while_ (Z.to_nat b.(AudioBuffer.length))
             (fun st => pos st <? b.(AudioBuffer.length))
             (for_ 0 b.(AudioBuffer.numberOfChannels) write_sample ;;
              p <- get_pos ;; set_pos (p + 1)))
     (fun _ st' => data_inv b (Z.to_nat b.(AudioBuffer.length) - 44) 0 st')
     (after_channels b).
Proof.
  intro Hwf.
  pose (I := fun st => exists k : nat,
                 data_inv b k 0 st /\
                 Z.of_nat k <= Z.max 0 (b.(AudioBuffer.length) - 44)).
  eapply wp_conseq.
  - apply (wp_while I (fun st => Z.to_nat (b.(AudioBuffer.length) - pos st))).
    + intros st (k & Hinv & Hk) Hc. apply Z.ltb_lt in Hc.
      assert (Hp : pos st = 44 + Z.of_nat k) by apply Hinv.
      eapply wp_conseq.
      * apply (frame_step b k); auto. lia.
      * intros u st' Hinv'. split.
        -- exists (S k). split; [exact Hinv'|]. lia.
        -- assert (Hp' : pos st' = 44 + Z.of_nat (S k)) by apply Hinv'. lia.
    + exists 0%nat. split; [apply data_inv_init; exact Hwf | lia].
    + cbn [pos after_channels]. lia.
  - intros u st' ((k & Hinv & Hk) & Hc). cbv beta in Hc. apply Z.ltb_ge in Hc.
    assert (Hp : pos st' = 44 + Z.of_nat k) by apply Hinv.
    replace (Z.to_nat (AudioBuffer.length b) - 44)%nat with k by lia.
    exact Hinv.
Qed.

(* ===================================================================== *)
(** ** The run of [writeWav] *)
(* ===================================================================== *)

Lemma total_length_ge (b : AudioBuffer.t) :
  well_formed b -> 0 <= total_length b - 44.
Proof. intros (_ & Hl & Hn & _). unfold total_length. nia. Qed.

(** The final state of a run on a well-formed buffer. *)
Lemma writeWav_run_spec (b : AudioBuffer.t) :
  well_formed b ->
  exists st, writeWav_run b = Returned st /\
             data_inv b (Z.to_nat b.(AudioBuffer.length) - 44) 0 st.
Proof.
  intro Hwf.
  assert (H : wp (writeWav_body b)
                 (fun _ st => data_inv b (Z.to_nat b.(AudioBuffer.length) - 44) 0 st)
                 (initial b)).
  { unfold writeWav_body. fold (total_length b). apply wp_bind.
    eapply returned_wp; [apply write_header_run, total_length_ge, Hwf|].
    unfold write_data. apply wp_bind.
    eapply wp_conseq; [apply collect_channels_run, Hwf|].
    intros u st ->. apply data_loop_run, Hwf. }
  apply wp_returned in H. destruct H as ([] & st & E & Hinv).
  exists st. split; [|exact Hinv].
  unfold writeWav_run. rewrite E. reflexivity.
Qed.

Lemma data_inv_final_view (b : AudioBuffer.t) (st : closure) :
  data_inv b (Z.to_nat b.(AudioBuffer.length) - 44) 0 st ->
  view st = wav_bytes b.
Proof.
  intros (Hv & _). rewrite Hv. unfold wav_bytes, unwritten.
  rewrite length_data_written.
  cbn [seq flat_map]. rewrite app_nil_r.
  unfold data_written, frames_converted.
  do 3 f_equal. lia.
Qed.

(** The blob [writeWav] returns for a well-formed buffer. *)
Lemma writeWav_returns (b : AudioBuffer.t) :
  well_formed b ->
  writeWav b = Returned {| blob_bytes := wav_bytes b; blob_type := "audio/wav" |}.
Proof.
  intro Hwf. destruct (writeWav_run_spec b Hwf) as (st & E & Hinv).
  unfold writeWav. rewrite E, (data_inv_final_view b st Hinv). reflexivity.
Qed.

Lemma length_wav_bytes (b : AudioBuffer.t) :
  well_formed b ->
  Z.of_nat (List.length (wav_bytes b)) = total_length b.
Proof.
  intro Hwf. pose proof (total_length_ge b Hwf) as Hge.
  destruct Hwf as (_ & Hl & Hn & _).
  unfold wav_bytes, unwritten.
  rewrite !length_app, length_header_bytes, repeat_length, length_data_written.
  assert ((2 * List.length (AudioBuffer.channelData b)
             * (Z.to_nat (AudioBuffer.length b) - 44)
           <= Z.to_nat (total_length b - 44))%nat).
  { apply Nat2Z.inj_le. rewrite Z2Nat.id by lia. unfold total_length.
    rewrite Hn. nia. }
  lia.
Qed.

(* ===================================================================== *)
(** ** Facts about binary64 arithmetic *)
(* ===================================================================== *)

Module JSFacts.

Lemma fexp_eq (z : Z) : fexp JS.prec JS.emax z = Z.max (z - 53) (-1074).
Proof. reflexivity. Qed.

(** *** Binary digits *)

Lemma digits2_pos_size (p : positive) : digits2_pos p = Pos.size p.
Proof. induction p; simpl; congruence. Qed.

Lemma digits_upper (p : positive) : Z.pos p < 2 ^ Z.pos (digits2_pos p).
Proof.
  rewrite digits2_pos_size.
  pose proof (Pos.size_gt p) as H.
  apply Pos2Z.pos_lt_pos in H. rewrite Pos2Z.inj_pow in H. exact H.
Qed.

Lemma digits_lower (p : positive) : 2 ^ (Z.pos (digits2_pos p) - 1) <= Z.pos p.
Proof.
  rewrite digits2_pos_size.
  pose proof (Pos.size_le p) as H.
  apply Pos2Z.pos_le_pos in H. rewrite Pos2Z.inj_pow in H.
  replace (Z.pos (Pos.size p)) with (Z.succ (Z.pos (Pos.size p) - 1)) in H by lia.
  rewrite Z.pow_succ_r in H by lia.
  change (Z.pos p~0) with (2 * Z.pos p) in H. lia.
Qed.

Lemma digits_le (p : positive) (k : Z) :
  0 <= k -> Z.pos p < 2 ^ k -> Z.pos (digits2_pos p) <= k.
Proof.
  intros Hk Hp. pose proof (digits_lower p) as Hl.
  destruct (Z_le_gt_dec (Z.pos (digits2_pos p)) k) as [|Hgt]; [assumption|].
  assert (2 ^ k <= 2 ^ (Z.pos (digits2_pos p) - 1))
    by (apply Z.pow_le_mono_r; lia).
  lia.
Qed.

Lemma Zdigits2_le (m k : Z) :
  0 <= k -> 0 <= m < 2 ^ k -> Zdigits2 m <= k.
Proof.
  intros Hk [Hm Hlt]. destruct m as [|p|p]; simpl; try lia.
  apply digits_le; assumption.
Qed.

(** *** Right shifts *)

Lemma iter_pos_nat {A} (f : A -> A) (p : positive) (x : A) :
  iter_pos f p x = Nat.iter (Pos.to_nat p) f x.
Proof.
  transitivity (Pos.iter f x p); [|rewrite Pos2Nat.inj_iter; reflexivity].
  revert x. induction p as [p IH|p IH|]; intro x; simpl.
  - rewrite !IH, !Pos.iter_swap. reflexivity.
  - rewrite !IH. reflexivity.
  - reflexivity.
Qed.

Lemma shr_1_m (mrs : shr_record) :
  0 <= shr_m mrs -> shr_m (shr_1 mrs) = shr_m mrs / 2.
Proof.
  destruct mrs as [m r s]. cbn [shr_m]. intro Hm.
  destruct m as [|[p|p|]|p]; cbn [shr_1 shr_m]; try lia; try reflexivity.
  - change (Z.pos p~1) with (2 * Z.pos p + 1).
    apply (Z.div_unique _ _ _ 1); lia.
  - change (Z.pos p~0) with (2 * Z.pos p).
    apply (Z.div_unique _ _ _ 0); lia.
Qed.

Lemma shr_1_exact (mrs : shr_record) :
  0 <= shr_m mrs ->
  shr_r mrs = false -> shr_s mrs = false -> Z.even (shr_m mrs) = true ->
  shr_r (shr_1 mrs) = false /\ shr_s (shr_1 mrs) = false.
Proof.
  destruct mrs as [m r s]. cbn [shr_m shr_r shr_s]. intros Hm -> -> He.
  destruct m as [|[p|p|]|p]; cbn in *; try discriminate; try lia; auto.
Qed.

Lemma shr_nat (n : nat) (m : Z) :
  0 <= m ->
  let mrs := Nat.iter n shr_1 (Build_shr_record m false false) in
  shr_m mrs = m / 2 ^ Z.of_nat n /\
  (m mod 2 ^ Z.of_nat n = 0 -> shr_r mrs = false /\ shr_s mrs = false).
Proof.
  intro Hm. induction n as [|n IH].
  - simpl. rewrite Z.div_1_r. auto.
  - cbv zeta in *. rewrite Nat.iter_succ.
    destruct IH as [IHm IHx].
    set (mrs := Nat.iter n shr_1 _) in *.
    assert (H0 : 0 <= shr_m mrs)
      by (rewrite IHm; apply Z.div_pos; [lia | apply Z.pow_pos_nonneg; lia]).
    assert (Hp : 0 < 2 ^ Z.of_nat n) by (apply Z.pow_pos_nonneg; lia).
    rewrite Nat2Z.inj_succ, Z.pow_succ_r by lia.
    split.
    + rewrite shr_1_m, IHm by exact H0.
      rewrite Z.div_div by lia. f_equal. lia.
    + intro Hmod.
      assert (Hmod' : m mod 2 ^ Z.of_nat n = 0).
      { apply Z.mod_divide in Hmod; [|lia].
        apply Z.mod_divide; [lia|].
        destruct Hmod as [q Hq]. exists (q * 2). lia. }
      destruct (IHx Hmod') as [Hr Hs].
      apply shr_1_exact; auto.
      rewrite IHm.
      apply Z.mod_divide in Hmod; [|lia]. destruct Hmod as [q Hq].
      replace m with ((q * 2) * 2 ^ Z.of_nat n) by lia.
      rewrite Z.div_mul by lia. rewrite Z.even_mul. apply orb_true_r.
Qed.

Lemma shr_spec (m e n : Z) :
  0 <= m ->
  let res := shr (Build_shr_record m false false) e n in
  let k := Z.max 0 n in
  snd res = e + k /\
  shr_m (fst res) = m / 2 ^ k /\
  (m mod 2 ^ k = 0 -> loc_of_shr_record (fst res) = loc_Exact).
Proof.
  intro Hm. destruct n as [|p|p]; cbn [shr fst snd Z.max Z.compare].
  - rewrite Z.add_0_r, Z.div_1_r. auto.
  - cbv zeta. replace (Z.max 0 (Z.pos p)) with (Z.pos p) by lia.
    rewrite iter_pos_nat.
    destruct (shr_nat (Pos.to_nat p) m Hm) as [H1 H2].
    rewrite positive_nat_Z in H1, H2.
    repeat split; auto.
    intro Hmod. destruct (H2 Hmod) as [Hr Hs].
    destruct (Nat.iter _ _ _) as [m' r s]. cbn in *. subst. reflexivity.
  - cbv zeta. replace (Z.max 0 (Z.neg p)) with 0 by lia.
    rewrite Z.add_0_r, Z.div_1_r. auto.
Qed.

(** *** Rounding to nearest *)

Lemma round_nearest_even_bounds (mrs : shr_record) :
  shr_m mrs <= round_nearest_even (shr_m mrs) (loc_of_shr_record mrs)
            <= shr_m mrs + 1.
Proof.
  destruct mrs as [m [|] [|]]; cbn; try lia.
  destruct (Z.even m); lia.
Qed.

(** Rounding the quotient [m / 2^k] never passes an integer [N] that
    bounds the exact quotient. *)
Lemma shr_round_le (m e n N : Z) :
  0 <= m ->
  m <= N * 2 ^ Z.max 0 n ->
  let res := shr (Build_shr_record m false false) e n in
  0 <= round_nearest_even (shr_m (fst res)) (loc_of_shr_record (fst res)) <= N.
Proof.
  intros Hm HN. cbv zeta.
  destruct (shr_spec m e n Hm) as (_ & Hq & Hx).
  set (res := shr _ e n) in *. set (k := Z.max 0 n) in *.
  assert (Hp : 0 < 2 ^ k) by (apply Z.pow_pos_nonneg; lia).
  pose proof (round_nearest_even_bounds (fst res)) as Hb.
  assert (0 <= m / 2 ^ k) by (apply Z.div_pos; lia).
  split; [lia|].
  destruct (Z.eq_dec (m mod 2 ^ k) 0) as [Hz|Hnz].
  - rewrite (Hx Hz). cbn [round_nearest_even]. rewrite Hq.
    apply Z.div_le_upper_bound; lia.
  - assert (m / 2 ^ k < N).
    { apply Z.div_lt_upper_bound; [lia|].
      pose proof (Z.mod_pos_bound m (2 ^ k) Hp).
      assert (m <> N * 2 ^ k).
      { intro Heq. apply Hnz. rewrite Heq. apply Z.mod_mul. lia. }
      lia. }
    lia.
Qed.

(** *** Rounding a bounded product *)

Lemma pow2_split (a b : Z) : 0 <= a -> 0 <= b -> 2 ^ (a + b) = 2 ^ a * 2 ^ b.
Proof. intros. apply Z.pow_add_r; assumption. Qed.

(** Rounding [M * 2^E], a value of at most the integer [B], yields zero
    or a finite number whose truncation is at most [B]. *)
Lemma binary_round_aux_bound (s : bool) (M : positive) (E B : Z) :
  E < 0 -> 0 <= B < 2 ^ 52 ->
  Z.pos M <= B * 2 ^ (- E) ->
  exists z,
    JS.truncate (binary_round_aux JS.prec JS.emax s (Z.pos M) E loc_Exact)
    = Some (cond_Zopp s z) /\ 0 <= z <= B.
Proof.
  intros HE HB HM.
  unfold binary_round_aux, shr_fexp. cbn [shr_record_of_loc].
  rewrite !fexp_eq.
  set (n1 := Z.max (Zdigits2 (Z.pos M) + E - 53) (-1074) - E).
  assert (HpE : 0 < 2 ^ (- E)) by (apply Z.pow_pos_nonneg; lia).
  (* the exponent after the first shift is negative *)
  assert (Hd : Zdigits2 (Z.pos M) <= 52 - E).
  { apply Zdigits2_le; [lia|]. split; [lia|].
    replace (52 - E) with (52 + - E) by lia.
    rewrite (pow2_split 52 (- E)) by lia. nia. }
  set (k1 := Z.max 0 n1).
  assert (He1 : E + k1 < 0) by (unfold k1, n1; lia).
  assert (Hk1 : 0 <= k1) by (unfold k1; lia).
  assert (HM1 : Z.pos M <= (B * 2 ^ (- (E + k1))) * 2 ^ k1).
  { rewrite <- Z.mul_assoc, <- pow2_split by lia.
    replace (- (E + k1) + k1) with (- E) by lia. exact HM. }
  pose proof (shr_spec (Z.pos M) E n1 ltac:(lia)) as (Hs1 & _ & _).
  pose proof (shr_round_le (Z.pos M) E n1 _ ltac:(lia) HM1) as Hr1.
  cbv zeta in Hs1, Hr1. fold k1 in Hs1.
  destruct (shr _ E n1) as [mrs1 e1]. cbn [fst snd] in Hs1, Hr1. subst e1.
  rewrite ?fexp_eq.
  set (mr := round_nearest_even (shr_m mrs1) (loc_of_shr_record mrs1)) in *.
  set (e1 := E + k1) in *.
  assert (Hp1 : 0 < 2 ^ (- e1)) by (apply Z.pow_pos_nonneg; lia).
  (* the second shift *)
  set (n2 := Z.max (Zdigits2 mr + e1 - 53) (-1074) - e1).
  assert (Hdr : Zdigits2 mr <= 52 - e1).
  { apply Zdigits2_le; [lia|]. split; [lia|].
    replace (52 - e1) with (52 + - e1) by lia.
    rewrite (pow2_split 52 (- e1)) by lia. nia. }
  set (k2 := Z.max 0 n2).
  assert (Hk2 : 0 <= k2) by (unfold k2; lia).
  assert (He2 : e1 + k2 <= 971) by (unfold k2, n2; lia).
  pose proof (shr_spec mr e1 n2 ltac:(lia)) as (Hs2 & Hq2 & _).
  cbv zeta in Hs2, Hq2. fold k2 in Hs2, Hq2.
  destruct (shr _ e1 n2) as [mrs2 e2]. cbn [fst snd] in Hs2, Hq2. subst e2.
  assert (Hp2 : 0 < 2 ^ k2) by (apply Z.pow_pos_nonneg; lia).
  assert (Hm2 : 0 <= shr_m mrs2) by (rewrite Hq2; apply Z.div_pos; lia).
  assert (Hm2' : shr_m mrs2 * 2 ^ k2 <= B * 2 ^ (- e1)).
  { rewrite Hq2. pose proof (Z.mul_div_le mr (2 ^ k2) Hp2). lia. }
  destruct (shr_m mrs2) as [|m2|m2] eqn:Em2.
  - exists 0. split; [destruct s; reflexivity | lia].
  - change (JS.emax - JS.prec) with 971.
    replace (e1 + k2 <=? 971) with true by (symmetry; apply Z.leb_le; lia).
    cbn [JS.truncate].
    exists (Z.shiftl (Z.pos m2) (e1 + k2)). split; [reflexivity|].
    destruct (Z_le_gt_dec 0 (e1 + k2)) as [Hpos|Hneg].
    + rewrite Z.shiftl_mul_pow2 by lia.
      assert (0 < 2 ^ (e1 + k2)) by (apply Z.pow_pos_nonneg; lia).
      split; [lia|].
      replace k2 with ((e1 + k2) + (- e1)) in Hm2' by lia.
      rewrite pow2_split in Hm2' by lia. nia.
    + rewrite Z.shiftl_div_pow2 by lia.
      assert (0 < 2 ^ (- (e1 + k2))) by (apply Z.pow_pos_nonneg; lia).
      split; [apply Z.div_pos; lia|].
      apply Z.div_le_upper_bound; [lia|].
      replace (- e1) with (- (e1 + k2) + k2) in Hm2' by lia.
      rewrite pow2_split in Hm2' by lia. nia.
  - lia.
Qed.

(** *** Valid numbers and the clamp *)

Lemma valid_finite (b : bool) (m : positive) (e : Z) :
  JS.valid (S754_finite b m e) = true ->
  Z.max (Z.pos (digits2_pos m) + e - 53) (-1074) = e /\ e <= 971.
Proof.
  unfold JS.valid, valid_binary, bounded, canonical_mantissa.
  rewrite fexp_eq. intro H. apply andb_prop in H. destruct H as [H1 H2].
  apply Z.eqb_eq in H1. apply Z.leb_le in H2.
  change (JS.emax - JS.prec) with 971 in H2. auto.
Qed.

Lemma valid_finite_lt (b : bool) (m : positive) (e : Z) :
  JS.valid (S754_finite b m e) = true -> Z.pos m < 2 ^ 53.
Proof.
  intro H. apply valid_finite in H. destruct H as [H _].
  pose proof (digits_upper m) as Hu.
  assert (2 ^ Z.pos (digits2_pos m) <= 2 ^ 53) by (apply Z.pow_le_mono_r; lia).
  lia.
Qed.

Lemma valid_finite_normal (b : bool) (m : positive) (e : Z) :
  JS.valid (S754_finite b m e) = true -> -1074 < e ->
  2 ^ 52 <= Z.pos m.
Proof.
  intros H He. apply valid_finite in H. destruct H as [H _].
  pose proof (digits_lower m) as Hl.
  replace (Z.pos (digits2_pos m) - 1) with 52 in Hl by lia. exact Hl.
Qed.

Lemma of_Z_1 : JS.of_Z 1 = S754_finite false 4503599627370496 (-52).
Proof. reflexivity. Qed.
Lemma of_Z_m1 : JS.of_Z (-1) = S754_finite true 4503599627370496 (-52).
Proof. reflexivity. Qed.

Lemma unit_range_small (b : bool) (m : positive) (e : Z) :
  JS.valid (S754_finite b m e) = true -> e < -52 ->
  unit_range (S754_finite b m e).
Proof.
  intros Hv He. cbn [unit_range]. split; [lia|].
  pose proof (valid_finite_lt b m e Hv).
  assert (2 ^ 53 <= 2 ^ (- e)) by (apply Z.pow_le_mono_r; lia). lia.
Qed.

(** A clamped number is NaN, a zero, or a finite number of magnitude at
    most 1; it is valid when the sample is. *)
Lemma clamp_unit_range (s : JS.number) :
  JS.valid s = true -> s <> JS.NaN ->
  unit_range (clamp s) /\ JS.valid (clamp s) = true.
Proof.
  intros Hv Hn. unfold clamp, JS.Math_min, JS.Math_max.
  rewrite of_Z_1, of_Z_m1.
  destruct s as [b|b| |b m e].
  - destruct b; cbn; auto.
  - destruct b; cbn; split; auto; split; lia.
  - contradiction.
  - pose proof (unit_range_small b m e Hv) as Hsmall.
    assert (Hone : forall b', unit_range (S754_finite b' 4503599627370496 (-52)) /\
                   JS.valid (S754_finite b' 4503599627370496 (-52)) = true).
    { intro b'. split; [|reflexivity]. cbn [unit_range]. split; [lia|].
      change (2 ^ (- -52)) with 4503599627370496. lia. }
    assert (Hle : -52 = e -> Z.pos m <= 4503599627370496 ->
                  unit_range (S754_finite b m e)).
    { intros <- Hm. cbn [unit_range]. split; [lia|].
      change (2 ^ (- -52)) with 4503599627370496. exact Hm. }
    destruct b; cbn [SFcompare JS.is_neg_zero];
      change (Pos.compare_cont Eq 4503599627370496 m)
        with (Z.compare 4503599627370496 (Z.pos m));
      destruct (Z.compare_spec (-52) e) as [He|He|He];
      try (destruct (Z.compare_spec 4503599627370496 (Z.pos m)) as [Hm|Hm|Hm]);
      cbn [CompOpp JS.is_neg_zero SFcompare];
      lazymatch goal with
      | |- unit_range (S754_finite _ 4503599627370496 (-52)) /\ _ =>
          exact (Hone _)
      | |- unit_range (S754_finite _ m e) /\ _ =>
          split; [first [apply Hsmall; lia | apply Hle; [exact He | lia]]
                 | exact Hv]
      end.
Qed.

(** *** Multiplication of a clamped number by an integer constant *)

Lemma cond_Zopp_range (s : bool) (z B : Z) :
  0 <= z <= B ->
  - B <= cond_Zopp s z <= B /\
  (s = false -> 0 <= cond_Zopp s z) /\ (s = true -> cond_Zopp s z <= 0).
Proof. intro H. destruct s; cbn [cond_Zopp]; repeat split; try lia; discriminate. Qed.

Lemma mul_unit_bound (t : JS.number) (my : positive) (ey B : Z) :
  unit_range t ->
  ey <= 0 -> 0 <= B < 2 ^ 52 -> Z.pos my = B * 2 ^ (- ey) ->
  exists z, JS.truncate (JS.mul t (S754_finite false my ey)) = Some z /\
            - B <= z <= B /\
            (sign_bit t = false -> 0 <= z) /\ (sign_bit t = true -> z <= 0).
Proof.
  intros Ht Hey HB Hmy. destruct t as [s|s| |s m e]; cbn [unit_range] in Ht;
    try contradiction.
  - exists 0. cbn. repeat split; lia.
  - destruct Ht as [He Hm].
    unfold JS.mul. cbn [SFmul sign_bit]. rewrite xorb_false_r.
    destruct (binary_round_aux_bound s (m * my) (e + ey) B) as (z & Hz & Hr);
      [lia | exact HB | |].
    + rewrite Pos2Z.inj_mul, Hmy.
      replace (- (e + ey)) with (- e + - ey) by lia.
      rewrite pow2_split by lia.
      assert (0 < 2 ^ (- ey)) by (apply Z.pow_pos_nonneg; lia).
      assert (0 < 2 ^ (- e)) by (apply Z.pow_pos_nonneg; lia).
      nia.
    + exists (cond_Zopp s z). split; [exact Hz|].
      apply cond_Zopp_range. exact Hr.
Qed.

Lemma of_Z_32768 : JS.of_Z 32768 = S754_finite false 4503599627370496 (-37).
Proof. reflexivity. Qed.
Lemma of_Z_32767 : JS.of_Z 32767 = S754_finite false 9006924376834048 (-38).
Proof. reflexivity. Qed.
Lemma of_Z_0 : JS.of_Z 0 = S754_zero false.
Proof. reflexivity. Qed.
Lemma half_eq : JS.of_dyadic 1 (-1) = S754_finite false 4503599627370496 (-53).
Proof. reflexivity. Qed.
Lemma neg_half_eq : JS.of_dyadic (-1) (-1) = S754_finite true 4503599627370496 (-53).
Proof. reflexivity. Qed.

(** *** The sign of a rounded number *)

Lemma binary_round_aux_not_neg (M E : Z) (l : location) :
  SFltb (binary_round_aux JS.prec JS.emax false M E l) (S754_zero false) = false.
Proof.
  unfold binary_round_aux.
  destruct (shr_fexp _ _ M E l) as [mrs1 e1].
  destruct (shr_fexp _ _ _ e1 loc_Exact) as [mrs2 e2].
  destruct (shr_m mrs2); [reflexivity | | reflexivity].
  destruct (e2 <=? JS.emax - JS.prec); reflexivity.
Qed.

Lemma binary_round_not_neg (m : positive) (e : Z) :
  SFltb (binary_round JS.prec JS.emax false m e) (S754_zero false) = false.
Proof.
  unfold binary_round. destruct (shl_align _ _ _) as [mz ez].
  apply binary_round_aux_not_neg.
Qed.

(** Shifting a positive mantissa to its canonical exponent leaves a
    positive mantissa, as long as the exponent is not below the least. *)
Lemma shift_keeps_pos (m e : Z) :
  0 < m -> -1074 <= e ->
  let k := Z.max 0 (Z.max (Zdigits2 m + e - 53) (-1074) - e) in
  0 < m / 2 ^ k /\ -1074 <= e + k.
Proof.
  intros Hm He. cbv zeta.
  destruct m as [|p|p]; try lia. cbn [Zdigits2].
  set (d := Z.pos (digits2_pos p)).
  pose proof (digits_lower p) as Hl. fold d in Hl.
  split; [|lia].
  destruct (Z_le_gt_dec (Z.max (d + e - 53) (-1074) - e) 0) as [Hn|Hn].
  - replace (Z.max 0 _) with 0 by lia. rewrite Z.div_1_r. lia.
  - replace (Z.max 0 _) with (d - 53) by lia.
    assert (0 < 2 ^ (d - 53)) by (apply Z.pow_pos_nonneg; lia).
    apply Z.lt_le_trans with (2 ^ 52); [lia|].
    apply Z.div_le_lower_bound; [lia|].
    rewrite <- pow2_split by lia.
    replace (d - 53 + 52) with (d - 1) by lia. exact Hl.
Qed.

Lemma binary_round_aux_neg (M : positive) (E : Z) :
  -1074 <= E ->
  SFltb (binary_round_aux JS.prec JS.emax true (Z.pos M) E loc_Exact)
        (S754_zero false) = true.
Proof.
  intro HE. unfold binary_round_aux, shr_fexp. cbn [shr_record_of_loc].
  rewrite fexp_eq.
  pose proof (shift_keeps_pos (Z.pos M) E ltac:(lia) HE) as [Hq1 He1].
  cbv zeta in Hq1, He1.
  set (n1 := Z.max (Zdigits2 (Z.pos M) + E - 53) (-1074) - E) in *.
  pose proof (shr_spec (Z.pos M) E n1 ltac:(lia)) as (Hs1 & Hm1 & _).
  cbv zeta in Hs1, Hm1.
  destruct (shr _ E n1) as [mrs1 e1]. cbn [fst snd] in Hs1, Hm1. subst e1.
  pose proof (round_nearest_even_bounds mrs1) as Hb.
  set (mr := round_nearest_even (shr_m mrs1) (loc_of_shr_record mrs1)) in *.
  assert (Hmr : 0 < mr) by lia.
  rewrite fexp_eq.
  pose proof (shift_keeps_pos mr _ Hmr He1) as [Hq2 He2].
  cbv zeta in Hq2, He2.
  set (n2 := Z.max (Zdigits2 mr + (E + Z.max 0 n1) - 53) (-1074)
             - (E + Z.max 0 n1)) in *.
  pose proof (shr_spec mr (E + Z.max 0 n1) n2 ltac:(lia)) as (Hs2 & Hm2 & _).
  cbv zeta in Hs2, Hm2.
  destruct (shr _ _ n2) as [mrs2 e2]. cbn [fst snd] in Hs2, Hm2.
  rewrite <- Hm2 in Hq2.
  destruct (shr_m mrs2); try lia.
  destruct (e2 <=? JS.emax - JS.prec); reflexivity.
Qed.

Lemma shl_align_exp (m : positive) (e e' : Z) :
  -1074 <= e -> -1074 <= e' -> -1074 <= snd (shl_align m e e').
Proof.
  intros He He'. unfold shl_align. destruct (e' - e); cbn [snd]; lia.
Qed.

Lemma binary_round_neg (m : positive) (e : Z) :
  -1074 <= e ->
  SFltb (binary_round JS.prec JS.emax true m e) (S754_zero false) = true.
Proof.
  intro He. unfold binary_round.
  pose proof (shl_align_exp m e (fexp JS.prec JS.emax (Z.pos (digits2_pos m) + e)) He
                ltac:(rewrite fexp_eq; lia)) as H.
  destruct (shl_align _ _ _) as [mz ez]. cbn [snd] in H.
  apply binary_round_aux_neg. exact H.
Qed.

(** The sum of two aligned mantissas is negative exactly when its
    rounding is. *)
Lemma binary_normalize_ltb_0 (z e : Z) :
  -1074 <= e ->
  SFltb (binary_normalize JS.prec JS.emax z e false) (S754_zero false)
  = (z <? 0).
Proof.
  intro He. destruct z as [|p|p]; cbn [binary_normalize].
  - reflexivity.
  - apply binary_round_not_neg.
  - apply binary_round_neg. exact He.
Qed.

(** *** The branch test of the scaling *)

Lemma shl_pos (p d : positive) :
  Z.pos (Pos.iter xO p d) = Z.pos p * 2 ^ Z.pos d.
Proof.
  induction d as [|d IH] using Pos.peano_ind.
  - cbn [Pos.iter]. change (2 ^ 1) with 2. lia.
  - rewrite Pos.iter_succ, Pos2Z.inj_succ, Z.pow_succ_r by lia.
    change (Z.pos (Pos.iter xO p d)~0) with (2 * Z.pos (Pos.iter xO p d)).
    rewrite IH. lia.
Qed.

Lemma shl_align_value (m : positive) (e e' : Z) :
  e' <= e -> Z.pos (fst (shl_align m e e')) = Z.pos m * 2 ^ (e - e').
Proof.
  intro Hle. unfold shl_align.
  destruct (e' - e) as [|d|d] eqn:E; cbn [fst]; try lia.
  - replace (e - e') with 0 by lia. lia.
  - rewrite shl_pos. f_equal. f_equal. lia.
Qed.

Lemma compare_cont_Z (a b : positive) :
  Pos.compare_cont Eq a b = (Z.pos a ?= Z.pos b).
Proof. reflexivity. Qed.

(** [0.5 + t < 0] holds exactly when [t < -0.5]: the sum of two valid
    numbers is rounded without changing its sign. *)
Lemma add_half_ltb (t : JS.number) :
  JS.valid t = true ->
  JS.ltb (JS.add (JS.of_dyadic 1 (-1)) t) (JS.of_Z 0)
  = JS.ltb t (JS.of_dyadic (-1) (-1)).
Proof.
  intro Hv. rewrite half_eq, neg_half_eq, of_Z_0. unfold JS.ltb, JS.add.
  destruct t as [s|s| |s m e]; try (destruct s; reflexivity); try reflexivity.
  pose proof (valid_finite s m e Hv) as [Hc _].
  pose proof (valid_finite_lt s m e Hv) as Hlt.
  pose proof (valid_finite_normal s m e Hv) as Hnorm.
  cbn [SFadd].
  rewrite binary_normalize_ltb_0 by lia.
  rewrite !shl_align_value by lia.
  set (ez := Z.min (-53) e).
  assert (Hp1 : 0 < 2 ^ (-53 - ez)) by (apply Z.pow_pos_nonneg; lia).
  assert (Hp2 : 0 < 2 ^ (e - ez)) by (apply Z.pow_pos_nonneg; lia).
  unfold SFltb. destruct s; cbn [SFcompare cond_Zopp].
  - rewrite (compare_cont_Z m 4503599627370496).
    destruct (Z.compare_spec e (-53)) as [He|He|He].
    + subst e. replace ez with (-53) by (unfold ez; lia).
      replace (-53 - -53) with 0 by lia. rewrite Z.pow_0_r, !Z.mul_1_r.
      destruct (Z.compare_spec (Z.pos m) 4503599627370496) as [Hm|Hm|Hm];
        cbn [CompOpp].
      * rewrite Hm. reflexivity.
      * specialize (Hnorm ltac:(lia)).
        change (2 ^ 52) with 4503599627370496 in Hnorm. lia.
      * apply Z.ltb_lt. lia.
    + replace ez with e in * by (unfold ez; lia).
      replace (e - e) with 0 by lia. rewrite Z.pow_0_r, Z.mul_1_r.
      apply Z.ltb_ge.
      assert (2 ^ 1 <= 2 ^ (-53 - e)) by (apply Z.pow_le_mono_r; lia).
      change (2 ^ 1) with 2 in *. change (2 ^ 53) with 9007199254740992 in Hlt.
      nia.
    + replace ez with (-53) in * by (unfold ez; lia).
      replace (-53 - -53) with 0 by lia. rewrite Z.pow_0_r, Z.mul_1_r.
      apply Z.ltb_lt.
      specialize (Hnorm ltac:(lia)).
      assert (2 ^ 1 <= 2 ^ (e - -53)) by (apply Z.pow_le_mono_r; lia).
      change (2 ^ 1) with 2 in *. change (2 ^ 52) with 4503599627370496 in Hnorm.
      nia.
  - apply Z.ltb_ge. nia.
Qed.

End JSFacts.

(* ===================================================================== *)
(** ** The sample conversion, the header and the data region *)
(* ===================================================================== *)

Lemma clamp_above (s : JS.number) :
  JS.ltb (JS.of_Z 1) s = true -> clamp s = JS.of_Z 1.
Proof.
  unfold clamp, JS.Math_min, JS.ltb, SFltb.
  destruct (SFcompare (JS.of_Z 1) s) as [[]|]; try discriminate.
  intros _. reflexivity.
Qed.

Lemma clamp_below (s : JS.number) :
  JS.ltb s (JS.of_Z (-1)) = true -> clamp s = JS.of_Z (-1).
Proof.
  unfold clamp. rewrite JSFacts.of_Z_1, JSFacts.of_Z_m1.
  unfold JS.ltb, SFltb.
  destruct s as [sg|sg| |sg m e]; cbn [SFcompare]; try discriminate.
  - destruct sg; [reflexivity | discriminate].
  - destruct sg; [|discriminate].
    unfold JS.Math_min, JS.Math_max. cbn [SFcompare JS.is_neg_zero].
    rewrite (JSFacts.compare_cont_Z m 4503599627370496).
    rewrite (JSFacts.compare_cont_Z 4503599627370496 m).
    rewrite (Z.compare_antisym (Z.pos m) 4503599627370496).
    rewrite (Z.compare_antisym e (-52)).
    destruct (e ?= -52); cbn [CompOpp]; try discriminate.
    + destruct (Z.pos m ?= 4503599627370496); cbn [CompOpp]; try discriminate.
      reflexivity.
    + reflexivity.
Qed.

Lemma wrap_signed_int16 (z : Z) :
  -32768 <= z <= 32767 -> JS.wrap_signed 32 z = z.
Proof.
  intro Hz. unfold JS.wrap_signed.
  change (2 ^ 32) with 4294967296. change (2 ^ (32 - 1)) with 2147483648.
  pose proof (Z.mod_pos_bound z 4294967296 ltac:(lia)) as Hb.
  pose proof (Z.div_mod z 4294967296 ltac:(lia)) as Hd.
  destruct (Z.ltb_spec (z mod 4294967296) 2147483648); lia.
Qed.

Lemma ltb_neg_half_sign (t : JS.number) :
  JS.ltb t (JS.of_dyadic (-1) (-1)) = true -> sign_bit t = true.
Proof.
  rewrite JSFacts.neg_half_eq. unfold JS.ltb, SFltb.
  destruct t as [sg|sg| |sg m e]; cbn [SFcompare sign_bit]; try discriminate;
    destruct sg; try discriminate; reflexivity.
Qed.

(** The scaled value of a number of magnitude at most 1 has an integer
    part in the 16-bit range. *)
Lemma scale_unit_range (t : JS.number) :
  JS.valid t = true -> unit_range t ->
  exists z, JS.truncate (scale t) = Some z /\ -32768 <= z <= 32767.
Proof.
  intros Hv Hu. unfold scale. rewrite JSFacts.add_half_ltb by exact Hv.
  destruct (JS.ltb t (JS.of_dyadic (-1) (-1))) eqn:E.
  - rewrite JSFacts.of_Z_32768.
    destruct (JSFacts.mul_unit_bound t 4503599627370496 (-37) 32768 Hu)
      as (z & Hz & Hr & _ & Hneg); [lia | split; [lia | reflexivity] | reflexivity |].
    exists z. split; [exact Hz|].
    specialize (Hneg (ltb_neg_half_sign t E)). lia.
  - rewrite JSFacts.of_Z_32767.
    destruct (JSFacts.mul_unit_bound t 9006924376834048 (-38) 32767 Hu)
      as (z & Hz & Hr & _); [lia | split; [lia | reflexivity] | reflexivity |].
    exists z. split; [exact Hz | lia].
Qed.

Lemma convert_sample_range (s : JS.number) :
  JS.valid s = true -> s <> JS.NaN ->
  exists z, JS.truncate (scale (clamp s)) = Some z /\
            convert_sample s = z /\ -32768 <= z <= 32767.
Proof.
  intros Hv Hn. destruct (JSFacts.clamp_unit_range s Hv Hn) as [Hu Hvc].
  destruct (scale_unit_range (clamp s) Hvc Hu) as (z & Hz & Hr).
  exists z. split; [exact Hz|]. split; [|exact Hr].
  unfold convert_sample, JS.bitor0, JS.ToInt32. rewrite Hz.
  apply wrap_signed_int16, Hr.
Qed.

(** C2: the 16-bit value of a sample is the scaled clamped sample with its
    fractional part dropped. *)
Theorem C2_sample_conversion (s : JS.number) :
  JS.valid s = true -> s <> JS.NaN ->
  (exists z, JS.truncate (scale (clamp s)) = Some z /\
             convert_sample s = z /\ -32768 <= z <= 32767) /\
  convert_sample (JS.of_Z 1) = 32767 /\
  convert_sample (JS.of_Z (-1)) = -32768 /\
  (JS.ltb (JS.of_Z 1) s = true -> convert_sample s = convert_sample (JS.of_Z 1)) /\
  (JS.ltb s (JS.of_Z (-1)) = true -> convert_sample s = convert_sample (JS.of_Z (-1))).
Proof.
  intros Hv Hn. split; [apply convert_sample_range; assumption|].
  split; [reflexivity|]. split; [reflexivity|]. split; intro H.
  - unfold convert_sample. rewrite (clamp_above s H). reflexivity.
  - unfold convert_sample. rewrite (clamp_below s H). reflexivity.
Qed.

Lemma C2_sample_conversion_witness :
  (exists z, JS.truncate (scale (clamp num_two)) = Some z /\
             convert_sample num_two = z /\ -32768 <= z <= 32767) /\
  convert_sample (JS.of_Z 1) = 32767 /\
  convert_sample (JS.of_Z (-1)) = -32768 /\
  (JS.ltb (JS.of_Z 1) num_two = true ->
   convert_sample num_two = convert_sample (JS.of_Z 1)) /\
  (JS.ltb num_two (JS.of_Z (-1)) = true ->
   convert_sample num_two = convert_sample (JS.of_Z (-1))).
Proof.
  apply (C2_sample_conversion num_two); [reflexivity | discriminate].
Defined.

(** C6 (as amended): the factor is 32768 exactly when the sample is below
    -0.5, and 32767 otherwise. *)
Theorem C6_scale_threshold (t : JS.number) :
  JS.valid t = true ->
  scale t = if JS.ltb t (JS.of_dyadic (-1) (-1))
            then JS.mul t (JS.of_Z 32768)
            else JS.mul t (JS.of_Z 32767).
Proof.
  intro Hv. unfold scale. rewrite JSFacts.add_half_ltb by exact Hv. reflexivity.
Qed.

Lemma C6_scale_threshold_witness :
  scale num_neg_three_quarters
  = if JS.ltb num_neg_three_quarters (JS.of_dyadic (-1) (-1))
    then JS.mul num_neg_three_quarters (JS.of_Z 32768)
    else JS.mul num_neg_three_quarters (JS.of_Z 32767).
Proof.
  apply (C6_scale_threshold num_neg_three_quarters). reflexivity.
Defined.

(** C6 (as stated): the sample -0.25 is negative and within [-1, 1], yet
    it is scaled by 32767, not by 32768. *)
Lemma C6_sign_rule_counterexample :
  ~ (forall t : JS.number,
        JS.valid t = true -> unit_range t -> scale t = scale_by_sign t).
Proof.
  intro H.
  specialize (H num_neg_quarter eq_refl ltac:(vm_compute; split; [reflexivity | discriminate])).
  vm_compute in H. discriminate H.
Qed.

(** C3: the blob has 44 + frameCount * channelCount * 2 bytes and the
    type audio/wav. *)
Theorem C3_blob_length_and_type (b : AudioBuffer.t) :
  well_formed b ->
  exists blob,
    writeWav b = Returned blob /\
    Z.of_nat (List.length (blob_bytes blob))
    = 44 + b.(AudioBuffer.length) * b.(AudioBuffer.numberOfChannels) * 2 /\
    blob_type blob = "audio/wav"%string.
Proof.
  intro Hwf. eexists. split; [apply writeWav_returns, Hwf|].
  cbn [blob_bytes blob_type]. split; [|reflexivity].
  rewrite (length_wav_bytes b Hwf). unfold total_length. lia.
Qed.

(** Well-formedness of a concrete buffer, by evaluation. *)
Ltac well_formed_by_evaluation :=
  unfold well_formed; cbn; repeat split; try lia; repeat constructor.

Lemma C3_blob_length_and_type_witness :
  exists blob,
    writeWav mono_one_frame = Returned blob /\
    Z.of_nat (List.length (blob_bytes blob))
    = 44 + mono_one_frame.(AudioBuffer.length)
           * mono_one_frame.(AudioBuffer.numberOfChannels) * 2 /\
    blob_type blob = "audio/wav"%string.
Proof.
  apply (C3_blob_length_and_type mono_one_frame). well_formed_by_evaluation.
Defined.

(** C4: the 44 header bytes, field by field; every integer field holds
    the little-endian encoding of its value at the width of the field. *)
Theorem C4_header_layout (b : AudioBuffer.t) :
  well_formed b ->
  exists blob,
    writeWav b = Returned blob /\
    let bytes := blob_bytes blob in
    let nch := b.(AudioBuffer.numberOfChannels) in
    let rate := b.(AudioBuffer.sampleRate) in
    slice bytes 0 4 = [Byte.x52; Byte.x49; Byte.x46; Byte.x46] /\
    slice bytes 4 4 = le_split 4 (total_length b - 8) /\
    slice bytes 8 4 = [Byte.x57; Byte.x41; Byte.x56; Byte.x45] /\
    slice bytes 12 4 = [Byte.x66; Byte.x6d; Byte.x74; Byte.x20] /\
    slice bytes 16 4 = le_split 4 16 /\
    slice bytes 20 2 = le_split 2 1 /\
    slice bytes 22 2 = le_split 2 nch /\
    slice bytes 24 4 = le_split 4 rate /\
    slice bytes 28 4 = le_split 4 (rate * nch * 2) /\
    slice bytes 32 2 = le_split 2 (nch * 2) /\
    slice bytes 34 2 = le_split 2 16 /\
    slice bytes 36 4 = [Byte.x64; Byte.x61; Byte.x74; Byte.x61] /\
    slice bytes 40 4 = le_split 4 (total_length b - 44) /\
    Z.of_nat (List.length bytes) = total_length b.
Proof.
  intro Hwf. eexists. split; [apply writeWav_returns, Hwf|].
  cbn [blob_bytes]. cbv zeta.
  replace (AudioBuffer.sampleRate b * AudioBuffer.numberOfChannels b * 2)
    with (AudioBuffer.sampleRate b * 2 * AudioBuffer.numberOfChannels b) by lia.
  repeat split; try reflexivity.
  apply length_wav_bytes, Hwf.
Qed.

Lemma C4_header_layout_witness :
  exists blob,
    writeWav stereo_two_frames = Returned blob /\
    let bytes := blob_bytes blob in
    let nch := stereo_two_frames.(AudioBuffer.numberOfChannels) in
    let rate := stereo_two_frames.(AudioBuffer.sampleRate) in
    slice bytes 0 4 = [Byte.x52; Byte.x49; Byte.x46; Byte.x46] /\
    slice bytes 4 4 = le_split 4 (total_length stereo_two_frames - 8) /\
    slice bytes 8 4 = [Byte.x57; Byte.x41; Byte.x56; Byte.x45] /\
    slice bytes 12 4 = [Byte.x66; Byte.x6d; Byte.x74; Byte.x20] /\
    slice bytes 16 4 = le_split 4 16 /\
    slice bytes 20 2 = le_split 2 1 /\
    slice bytes 22 2 = le_split 2 nch /\
    slice bytes 24 4 = le_split 4 rate /\
    slice bytes 28 4 = le_split 4 (rate * nch * 2) /\
    slice bytes 32 2 = le_split 2 (nch * 2) /\
    slice bytes 34 2 = le_split 2 16 /\
    slice bytes 36 4 = [Byte.x64; Byte.x61; Byte.x74; Byte.x61] /\
    slice bytes 40 4 = le_split 4 (total_length stereo_two_frames - 44) /\
    Z.of_nat (List.length bytes) = total_length stereo_two_frames.
Proof.
  apply (C4_header_layout stereo_two_frames). well_formed_by_evaluation.
Defined.

(** The data region of the output: the bytes the loop wrote, then the
    bytes it left as allocated. *)
Lemma data_region_wav_bytes (b : AudioBuffer.t) :
  data_region (wav_bytes b) = data_written b ++ repeat Byte.x00 (unwritten b).
Proof.
  unfold data_region, wav_bytes.
  rewrite skipn_app, skipn_all2 by (rewrite length_header_bytes; lia).
  rewrite length_header_bytes. reflexivity.
Qed.

Lemma length_data_written_le (b : AudioBuffer.t) :
  well_formed b ->
  (List.length (data_written b) <= Z.to_nat (total_length b - 44))%nat.
Proof.
  intros (_ & Hl & Hn & _). rewrite length_data_written.
  apply Nat2Z.inj_le. rewrite Z2Nat.id by (unfold total_length; nia).
  unfold total_length. rewrite Hn. nia.
Qed.

Lemma frames_converted_nil (b : AudioBuffer.t) :
  b.(AudioBuffer.length) <= 44 -> frames_converted b = [].
Proof.
  intro H. unfold frames_converted.
  replace (Z.to_nat (AudioBuffer.length b) - 44)%nat with 0%nat by lia.
  reflexivity.
Qed.

(** C7: an empty buffer gives the 44 header bytes and nothing else. *)
Theorem C7_header_only (b : AudioBuffer.t) :
  well_formed b ->
  exists blob,
    writeWav b = Returned blob /\
    (b.(AudioBuffer.length) = 0 \/ b.(AudioBuffer.numberOfChannels) = 0 ->
     blob_bytes blob = header_bytes b /\
     List.length (blob_bytes blob) = 44%nat /\
     getUint32 (blob_bytes blob) 40 = 0) /\
    (b.(AudioBuffer.length) = 0 -> b.(AudioBuffer.numberOfChannels) = 1 ->
     blob_bytes blob =
       [Byte.x52; Byte.x49; Byte.x46; Byte.x46] ++ le_split 4 36 ++
       [Byte.x57; Byte.x41; Byte.x56; Byte.x45] ++
       [Byte.x66; Byte.x6d; Byte.x74; Byte.x20] ++ le_split 4 16 ++
       le_split 2 1 ++ le_split 2 1 ++
       le_split 4 b.(AudioBuffer.sampleRate) ++
       le_split 4 (b.(AudioBuffer.sampleRate) * 2) ++
       le_split 2 2 ++ le_split 2 16 ++
       [Byte.x64; Byte.x61; Byte.x74; Byte.x61] ++ le_split 4 0).
Proof.
  intro Hwf. eexists. split; [apply writeWav_returns, Hwf|].
  cbn [blob_bytes].
  assert (Hempty : b.(AudioBuffer.length) = 0 \/ b.(AudioBuffer.numberOfChannels) = 0 ->
                   wav_bytes b = header_bytes b /\ total_length b = 44).
  { intro H.
    assert (Ht : total_length b = 44) by (unfold total_length; nia).
    split; [|exact Ht].
    pose proof (length_data_written_le b Hwf) as Hle.
    rewrite Ht in Hle. change (Z.to_nat (44 - 44)) with 0%nat in Hle.
    unfold wav_bytes, unwritten. rewrite Ht.
    destruct (data_written b); [|cbn in Hle; lia].
    cbn. rewrite app_nil_r. reflexivity. }
  split.
  - intro H. destruct (Hempty H) as [-> Ht]. split; [reflexivity|].
    split; [apply length_header_bytes|].
    unfold header_bytes. rewrite Ht. reflexivity.
  - intros Hl Hn. destruct (Hempty (or_introl Hl)) as [-> Ht].
    unfold header_bytes. rewrite Ht, Hn, Z.mul_1_r. reflexivity.
Qed.

Lemma C7_header_only_witness :
  exists blob,
    writeWav mono_no_frame = Returned blob /\
    (mono_no_frame.(AudioBuffer.length) = 0
     \/ mono_no_frame.(AudioBuffer.numberOfChannels) = 0 ->
     blob_bytes blob = header_bytes mono_no_frame /\
     List.length (blob_bytes blob) = 44%nat /\
     getUint32 (blob_bytes blob) 40 = 0) /\
    (mono_no_frame.(AudioBuffer.length) = 0 ->
     mono_no_frame.(AudioBuffer.numberOfChannels) = 1 ->
     blob_bytes blob =
       [Byte.x52; Byte.x49; Byte.x46; Byte.x46] ++ le_split 4 36 ++
       [Byte.x57; Byte.x41; Byte.x56; Byte.x45] ++
       [Byte.x66; Byte.x6d; Byte.x74; Byte.x20] ++ le_split 4 16 ++
       le_split 2 1 ++ le_split 2 1 ++
       le_split 4 mono_no_frame.(AudioBuffer.sampleRate) ++
       le_split 4 (mono_no_frame.(AudioBuffer.sampleRate) * 2) ++
       le_split 2 2 ++ le_split 2 16 ++
       [Byte.x64; Byte.x61; Byte.x74; Byte.x61] ++ le_split 4 0).
Proof.
  apply (C7_header_only mono_no_frame). well_formed_by_evaluation.
Defined.


Lemma flat_map_repeat {A} (f : A -> list byte) (x : byte) (k : nat) (l : list A) :
  (forall a, In a l -> f a = repeat x k) ->
  flat_map f l = repeat x (k * List.length l).
Proof.
  induction l as [|a l IH]; intro H.
  - rewrite Nat.mul_0_r. reflexivity.
  - cbn [flat_map List.length]. rewrite H by (left; reflexivity).
    rewrite IH by (intros a' Ha'; apply H; right; exact Ha').
    rewrite <- repeat_app. f_equal. lia.
Qed.

Lemma sample_at_cases (P : JS.number -> Prop) (b : AudioBuffer.t) (c p : nat) :
  Forall (Forall P) b.(AudioBuffer.channelData) ->
  P (sample_at b c p) \/ sample_at b c p = JS.NaN.
Proof.
  intro H. unfold sample_at.
  destruct (nth_in_or_default c (AudioBuffer.channelData b) []) as [Hin|E].
  - rewrite Forall_forall in H. specialize (H _ Hin).
    destruct (nth_in_or_default p (nth c (AudioBuffer.channelData b) []) JS.NaN)
      as [Hin'|E']; [|right; exact E'].
    left. rewrite Forall_forall in H. apply H, Hin'.
  - right. rewrite E. destruct p; reflexivity.
Qed.

Lemma unwritten_plus (b : AudioBuffer.t) :
  well_formed b ->
  (List.length (data_written b) + unwritten b)%nat
  = Z.to_nat (b.(AudioBuffer.length) * b.(AudioBuffer.numberOfChannels) * 2).
Proof.
  intro Hwf. pose proof (length_data_written_le b Hwf) as Hle.
  unfold unwritten. replace (total_length b - 44)
    with (AudioBuffer.length b * AudioBuffer.numberOfChannels b * 2) in *
    by (unfold total_length; lia).
  lia.
Qed.

(** A number that equals 0 is one of the two zeros. *)
Lemma eqb_zero (s : JS.number) :
  JS.eqb s (JS.of_Z 0) = true -> exists sg, s = S754_zero sg.
Proof.
  rewrite JSFacts.of_Z_0. unfold JS.eqb, SFeqb.
  destruct s as [sg|sg| |sg m e]; cbn [SFcompare]; try discriminate.
  - intros _. exists sg. reflexivity.
  - destruct sg; discriminate.
  - destruct sg; discriminate.
Qed.

Lemma convert_sample_zero (sg : bool) : convert_sample (S754_zero sg) = 0.
Proof. destruct sg; reflexivity. Qed.

(** C8: a buffer whose samples all equal 0.0, as [+0] or as [-0], gives
    a data region of zero bytes. *)
Theorem C8_silence (b : AudioBuffer.t) :
  well_formed b ->
  Forall (Forall (fun s => JS.eqb s (JS.of_Z 0) = true))
         b.(AudioBuffer.channelData) ->
  exists blob,
    writeWav b = Returned blob /\
    data_region (blob_bytes blob)
    = repeat Byte.x00
        (Z.to_nat (b.(AudioBuffer.length) * b.(AudioBuffer.numberOfChannels) * 2)).
Proof.
  intros Hwf Hz. eexists. split; [apply writeWav_returns, Hwf|].
  cbn [blob_bytes]. rewrite data_region_wav_bytes.
  assert (Hd : data_written b = repeat Byte.x00 (List.length (data_written b))).
  { rewrite length_data_written. unfold data_written.
    rewrite (flat_map_repeat (frame_bytes b) Byte.x00
               (2 * List.length (AudioBuffer.channelData b))).
    - unfold frames_converted. rewrite length_seq. reflexivity.
    - intros p _. unfold frame_bytes.
      rewrite (flat_map_repeat _ Byte.x00 2).
      + rewrite length_seq. reflexivity.
      + intros c _. unfold sample_bytes.
        destruct (sample_at_cases _ b c p Hz) as [E | E].
        * apply eqb_zero in E. destruct E as [sg E].
          rewrite E, convert_sample_zero. reflexivity.
        * rewrite E. reflexivity. }
  rewrite Hd, <- repeat_app, (unwritten_plus b Hwf). reflexivity.
Qed.

(** C10: the frames the loop converts are the frames from 44 on. *)
Theorem C10_frame_index_starts_at_44 (b : AudioBuffer.t) :
  well_formed b ->
  exists st,
    writeWav_run b = Returned st /\
    writeWav b = Returned {| blob_bytes := view st; blob_type := "audio/wav" |} /\
    (b.(AudioBuffer.length) <= 44 ->
     data_bytes_written (log st) = 0 /\
     data_region (view st)
     = repeat Byte.x00
         (Z.to_nat (b.(AudioBuffer.length) * b.(AudioBuffer.numberOfChannels) * 2))) /\
    (44 < b.(AudioBuffer.length) ->
     data_region (view st)
     = flat_map (frame_bytes b) (seq 44 (Z.to_nat b.(AudioBuffer.length) - 44))
       ++ repeat Byte.x00 (Z.to_nat (44 * b.(AudioBuffer.numberOfChannels) * 2))).
Proof.
  intro Hwf. destruct (writeWav_run_spec b Hwf) as (st & E & Hinv).
  exists st. split; [exact E|].
  split; [unfold writeWav; rewrite E; reflexivity|].
  rewrite (data_inv_final_view b st Hinv), data_region_wav_bytes.
  pose proof (unwritten_plus b Hwf) as Hu.
  destruct Hinv as (_ & _ & Hoff & _ & _ & Hcount).
  split; intro Hlen.
  - split.
    + rewrite Hcount, Hoff.
      replace (Z.to_nat (AudioBuffer.length b) - 44)%nat with 0%nat by lia. lia.
    + unfold data_written in *. rewrite (frames_converted_nil b Hlen) in *.
      cbn [flat_map List.length app Nat.add] in *. rewrite Hu. reflexivity.
  - unfold data_written at 1, frames_converted. f_equal. f_equal.
    rewrite length_data_written in Hu.
    destruct Hwf as (_ & Hl & Hn & _). rewrite Hn in *. nia.
Qed.

Lemma C8_silence_witness :
  exists blob,
    writeWav mono_silence_mixed = Returned blob /\
    data_region (blob_bytes blob)
    = repeat Byte.x00
        (Z.to_nat (mono_silence_mixed.(AudioBuffer.length)
                   * mono_silence_mixed.(AudioBuffer.numberOfChannels) * 2)).
Proof.
  apply (C8_silence mono_silence_mixed);
    [well_formed_by_evaluation | repeat constructor].
Defined.



Lemma SameValueZero_refl (x : JS.number) : JS.SameValueZero x x = true.
Proof.
  destruct x as [s|s| |s m e]; try (destruct s; reflexivity); try reflexivity.
  unfold JS.SameValueZero, SFeqb. cbn [SFcompare].
  destruct s; rewrite Z.compare_refl, Pos.compare_cont_refl; reflexivity.
Qed.



Lemma same_content_refl (b : AudioBuffer.t) : same_content b b.
Proof.
  repeat split. induction (AudioBuffer.channelData b) as [|a l IH];
    constructor; [|exact IH].
  induction a as [|x a IHa]; constructor; [apply SameValueZero_refl | exact IHa].
Qed.




Lemma C10_frame_index_starts_at_44_witness :
  exists st,
    writeWav_run mono_one_frame = Returned st /\
    writeWav mono_one_frame
    = Returned {| blob_bytes := view st; blob_type := "audio/wav" |} /\
    (mono_one_frame.(AudioBuffer.length) <= 44 ->
     data_bytes_written (log st) = 0 /\
     data_region (view st)
     = repeat Byte.x00
         (Z.to_nat (mono_one_frame.(AudioBuffer.length)
                    * mono_one_frame.(AudioBuffer.numberOfChannels) * 2))) /\
    (44 < mono_one_frame.(AudioBuffer.length) ->
     data_region (view st)
     = flat_map (frame_bytes mono_one_frame)
                (seq 44 (Z.to_nat mono_one_frame.(AudioBuffer.length) - 44))
       ++ repeat Byte.x00
            (Z.to_nat (44 * mono_one_frame.(AudioBuffer.numberOfChannels) * 2))).
Proof.
  apply (C10_frame_index_starts_at_44 mono_one_frame). well_formed_by_evaluation.
Defined.

(** C1: on the two-frame stereo buffer the four 16-bit values of the data
    region are all 0, while the converted samples in interleaved order are
    0, -16383, 16383, 0: frames 0 and 1 are not written. *)
Theorem C1_first_frames_not_written :
  well_formed stereo_two_frames /\
  exists blob,
    writeWav stereo_two_frames = Returned blob /\
    map (getInt16 (blob_bytes blob)) [44; 46; 48; 50] = [0; 0; 0; 0] /\
    map convert_sample [num_zero; num_neg_half; num_half; num_zero]
    = [0; -16383; 16383; 0] /\
    data_region (blob_bytes blob) <> data_interleaved stereo_two_frames.
Proof.
  split; [well_formed_by_evaluation|].
  eexists. split; [vm_compute; reflexivity|].
  split; [vm_compute; reflexivity|]. split; [vm_compute; reflexivity|].
  vm_compute. discriminate.
Qed.

(** C5: on the mono buffer of one frame the run writes no byte into the
    data region, where frameCount * channelCount * 2 is 2. *)
Theorem C5_no_data_byte_written :
  well_formed mono_one_frame /\
  mono_one_frame.(AudioBuffer.length)
  * mono_one_frame.(AudioBuffer.numberOfChannels) * 2 = 2 /\
  exists st,
    writeWav_run mono_one_frame = Returned st /\
    data_bytes_written (log st) = 0.
Proof.
  split; [well_formed_by_evaluation|]. split; [reflexivity|].
  eexists. split; vm_compute; reflexivity.
Qed.

(* ===================================================================== *)
(** ** Further properties of [writeWav] and of its helpers *)
(* ===================================================================== *)

(** Every read of a channel array and every write through the view stays
    inside the array or the allocated buffer. *)
Theorem writeWav_accesses_in_bounds (b : AudioBuffer.t) :
  well_formed b ->
  exists st,
    writeWav_run b = Returned st /\
    Z.of_nat (List.length (view st)) = total_length b /\
    Forall (in_bounds (Z.of_nat (List.length (view st)))) (log st).
Proof.
  intro Hwf. destruct (writeWav_run_spec b Hwf) as (st & E & Hinv).
  exists st. split; [exact E|].
  rewrite (data_inv_final_view b st Hinv), (length_wav_bytes b Hwf).
  split; [reflexivity|]. apply Hinv.
Qed.

Lemma writeWav_accesses_in_bounds_witness :
  exists st,
    writeWav_run mono_silence = Returned st /\
    Z.of_nat (List.length (view st)) = total_length mono_silence /\
    Forall (in_bounds (Z.of_nat (List.length (view st)))) (log st).
Proof.
  apply (writeWav_accesses_in_bounds mono_silence). well_formed_by_evaluation.
Defined.

(** The loop runs once per frame from 44 on: the final cursors and the
    number of data bytes written. *)
Theorem writeWav_final_cursors (b : AudioBuffer.t) :
  well_formed b ->
  exists st,
    writeWav_run b = Returned st /\
    pos st = Z.max 44 b.(AudioBuffer.length) /\
    offset st = 2 * b.(AudioBuffer.numberOfChannels)
                * Z.max 0 (b.(AudioBuffer.length) - 44) /\
    data_bytes_written (log st) = offset st.
Proof.
  intro Hwf. destruct (writeWav_run_spec b Hwf) as (st & E & Hinv).
  exists st. split; [exact E|].
  destruct Hinv as (_ & _ & Hoff & Hpos & _ & Hcount).
  destruct Hwf as (_ & Hl & Hn & _).
  split; [rewrite Hpos; lia|]. split; [|exact Hcount].
  rewrite Hoff, Hn. nia.
Qed.

Lemma writeWav_final_cursors_witness :
  exists st,
    writeWav_run mono_silence = Returned st /\
    pos st = Z.max 44 mono_silence.(AudioBuffer.length) /\
    offset st = 2 * mono_silence.(AudioBuffer.numberOfChannels)
                * Z.max 0 (mono_silence.(AudioBuffer.length) - 44) /\
    data_bytes_written (log st) = offset st.
Proof.
  apply (writeWav_final_cursors mono_silence). well_formed_by_evaluation.
Defined.

Lemma flat_map_ext_In {A B} (f g : A -> list B) (l : list A) :
  (forall a, In a l -> f a = g a) -> flat_map f l = flat_map g l.
Proof.
  induction l as [|a l IH]; intro H; [reflexivity|].
  cbn [flat_map]. rewrite (H a) by (left; reflexivity).
  rewrite IH by (intros a' Ha'; apply H; right; exact Ha'). reflexivity.
Qed.

Lemma same_from_frame_44_channels (b1 b2 : AudioBuffer.t) :
  well_formed b1 -> well_formed b2 -> same_from_frame_44 b1 b2 ->
  List.length b1.(AudioBuffer.channelData) = List.length b2.(AudioBuffer.channelData).
Proof.
  intros (_ & _ & H1 & _) (_ & _ & H2 & _) (_ & _ & Hn & _). lia.
Qed.

(** The output does not depend on the first 44 frames of the input. *)
Theorem writeWav_ignores_first_44_frames (b1 b2 : AudioBuffer.t) :
  well_formed b1 -> well_formed b2 -> same_from_frame_44 b1 b2 ->
  exists blob, writeWav b1 = Returned blob /\ writeWav b2 = Returned blob.
Proof.
  intros Hwf1 Hwf2 Hsame.
  pose proof (same_from_frame_44_channels b1 b2 Hwf1 Hwf2 Hsame) as Hch.
  destruct Hsame as (Hr & Hl & Hn & Hs).
  eexists. split; [apply writeWav_returns, Hwf1|].
  rewrite (writeWav_returns b2 Hwf2). do 2 f_equal.
  assert (Ht : total_length b1 = total_length b2)
    by (unfold total_length; rewrite Hl, Hn; reflexivity).
  assert (Hd : data_written b1 = data_written b2).
  { unfold data_written, frames_converted. rewrite Hl.
    apply flat_map_ext_In. intros p Hp. apply in_seq in Hp.
    unfold frame_bytes. rewrite Hch.
    apply flat_map_ext. intro c. rewrite (Hs c p) by lia. reflexivity. }
  unfold wav_bytes, unwritten, header_bytes. rewrite Hd, Ht, Hr, Hn. reflexivity.
Qed.

Lemma writeWav_ignores_first_44_frames_witness :
  exists blob,
    writeWav mono_silence = Returned blob /\
    writeWav mono_silence_but_first = Returned blob.
Proof.
  apply (writeWav_ignores_first_44_frames mono_silence mono_silence_but_first);
    [well_formed_by_evaluation | well_formed_by_evaluation |].
  unfold same_from_frame_44; cbn. repeat split.
  intros c p Hp. unfold sample_at; cbn.
  destruct c as [|c]; [|destruct c; reflexivity].
  destruct p as [|p]; [lia|]. reflexivity.
Defined.

Lemma convert_sample_int16 (s : JS.number) :
  JS.valid s = true -> -32768 <= convert_sample s <= 32767.
Proof.
  intro Hv. destruct s as [sg|sg| |sg m e].
  - destruct (convert_sample_range _ Hv ltac:(discriminate)) as (z & _ & -> & H).
    exact H.
  - destruct (convert_sample_range _ Hv ltac:(discriminate)) as (z & _ & -> & H).
    exact H.
  - vm_compute. split; discriminate.
  - destruct (convert_sample_range _ Hv ltac:(discriminate)) as (z & _ & -> & H).
    exact H.
Qed.

(** Reading a stored 16-bit sample back gives the value stored. *)
Lemma getInt16_le_split (z : Z) :
  -32768 <= z <= 32767 ->
  JS.wrap_signed 16 (le_combine (le_split 2 z)) = z.
Proof.
  intro Hz. rewrite le_combine_split.
  change (2 ^ (Z.of_nat 2 * 8)) with 65536.
  unfold JS.wrap_signed. change (2 ^ 16) with 65536.
  change (2 ^ (16 - 1)) with 32768.
  pose proof (Z.mod_pos_bound (z mod 65536) 65536 ltac:(lia)) as Hb.
  pose proof (Z.div_mod (z mod 65536) 65536 ltac:(lia)) as Hd.
  pose proof (Z.mod_pos_bound z 65536 ltac:(lia)) as Hb'.
  pose proof (Z.div_mod z 65536 ltac:(lia)) as Hd'.
  destruct (Z.ltb_spec ((z mod 65536) mod 65536) 32768); lia.
Qed.

Lemma skipn_flat_map {A} (f : A -> list byte) (k : nat) (l : list A) (i : nat)
      (rest : list byte) :
  (forall a, List.length (f a) = k) -> (i <= List.length l)%nat ->
  skipn (k * i) (flat_map f l ++ rest) = flat_map f (skipn i l) ++ rest.
Proof.
  intro Hk. revert i. induction l as [|a l IH]; intros i Hi.
  - cbn [List.length] in Hi. replace i with 0%nat by lia.
    rewrite Nat.mul_0_r. reflexivity.
  - destruct i as [|i].
    + rewrite Nat.mul_0_r. reflexivity.
    + cbn [List.length] in Hi. cbn [flat_map skipn]. rewrite <- app_assoc.
      replace (k * S i)%nat with (k * i + List.length (f a))%nat
        by (rewrite Hk; lia).
      rewrite skipn_app, skipn_all2 by lia.
      replace (k * i + List.length (f a) - List.length (f a))%nat
        with (k * i)%nat by lia.
      cbn [app]. apply IH. lia.
Qed.

Lemma skipn_seq_cons (s n i : nat) :
  (i < n)%nat -> skipn i (seq s n) = (s + i)%nat :: skipn (S i) (seq s n).
Proof.
  revert s i. induction n as [|n IH]; intros s i Hi; [lia|].
  destruct i as [|i].
  - cbn [seq skipn]. rewrite Nat.add_0_r. reflexivity.
  - cbn [seq]. change (skipn (S i) (s :: seq (S s) n)) with (skipn i (seq (S s) n)).
    change (skipn (S (S i)) (s :: seq (S s) n)) with (skipn (S i) (seq (S s) n)).
    rewrite IH by lia. f_equal. lia.
Qed.

(** The two bytes of the sample of channel [c] in the [k]-th frame the
    loop writes. *)
Lemma slice_data_sample (b : AudioBuffer.t) (k c : nat) :
  (44 + k < Z.to_nat b.(AudioBuffer.length))%nat ->
  (c < List.length b.(AudioBuffer.channelData))%nat ->
  slice (wav_bytes b)
        (44 + 2 * (Z.of_nat k * Z.of_nat (List.length b.(AudioBuffer.channelData))
                   + Z.of_nat c)) 2
  = sample_bytes (sample_at b c (44 + k)).
Proof.
  intros Hk Hc. remember (List.length (AudioBuffer.channelData b)) as n eqn:En.
  unfold slice.
  replace (Z.to_nat (44 + 2 * (Z.of_nat k * Z.of_nat n + Z.of_nat c)))
    with (2 * c + ((2 * n) * k + 44))%nat
    by nia.
  rewrite <- !skipn_skipn.
  unfold wav_bytes.
  rewrite (skipn_app 44), (skipn_all2 (n := 44) (header_bytes b))
    by (rewrite length_header_bytes; lia).
  rewrite length_header_bytes, Nat.sub_diag. cbn [skipn app].
  unfold data_written, frames_converted.
  rewrite (skipn_flat_map (frame_bytes b) (2 * n))
    by (try (intro; rewrite En; apply length_frame_bytes); rewrite length_seq; lia).
  rewrite (skipn_seq_cons 44 _ k) by lia.
  cbn [flat_map]. rewrite <- app_assoc.
  unfold frame_bytes at 1. rewrite <- En.
  rewrite (skipn_flat_map _ 2)
    by (try (intro; apply length_sample_bytes); rewrite length_seq; lia).
  rewrite (skipn_seq_cons 0 _ c) by exact Hc.
  cbn [flat_map Nat.add]. rewrite <- !app_assoc.
  rewrite firstn_app, firstn_all2 by (rewrite length_sample_bytes; lia).
  rewrite length_sample_bytes, Nat.sub_diag, firstn_0, app_nil_r.
  reflexivity.
Qed.

(** Frame [44 + k] of the input can be read back from slot [k] of the data
    region: the 16-bit value stored there is the converted sample. *)
Theorem writeWav_data_readback (b : AudioBuffer.t) (k c : nat) :
  well_formed b ->
  Forall (Forall (fun s => JS.valid s = true)) b.(AudioBuffer.channelData) ->
  44 + Z.of_nat k < b.(AudioBuffer.length) ->
  Z.of_nat c < b.(AudioBuffer.numberOfChannels) ->
  exists blob,
    writeWav b = Returned blob /\
    getInt16 (blob_bytes blob)
             (44 + 2 * (Z.of_nat k * b.(AudioBuffer.numberOfChannels) + Z.of_nat c))
    = convert_sample (sample_at b c (44 + k)).
Proof.
  intros Hwf Hv Hk Hc. eexists. split; [apply writeWav_returns, Hwf|].
  cbn [blob_bytes]. destruct Hwf as (_ & _ & Hn & _). rewrite Hn in *.
  unfold getInt16. rewrite slice_data_sample by lia.
  unfold sample_bytes. apply getInt16_le_split.
  destruct (sample_at_cases _ b c (44 + k) Hv) as [H | H].
  - apply convert_sample_int16, H.
  - rewrite H. vm_compute. split; discriminate.
Qed.

Lemma writeWav_data_readback_witness :
  exists blob,
    writeWav mono_late_samples = Returned blob /\
    getInt16 (blob_bytes blob)
             (44 + 2 * (Z.of_nat 1 * mono_late_samples.(AudioBuffer.numberOfChannels)
                        + Z.of_nat 0))
    = convert_sample (sample_at mono_late_samples 0 (44 + 1)).
Proof.
  apply (writeWav_data_readback mono_late_samples 1 0);
    [well_formed_by_evaluation | repeat constructor | reflexivity | reflexivity].
Defined.

(** The header agrees with the file: the sizes it declares are those of
    the blob, and the rates it declares are consistent. *)
Theorem writeWav_header_readback (b : AudioBuffer.t) :
  well_formed b -> header_fits b ->
  exists blob,
    writeWav b = Returned blob /\
    let bytes := blob_bytes blob in
    getUint32 bytes 4 = Z.of_nat (List.length bytes) - 8 /\
    getUint16 bytes 20 = 1 /\
    getUint16 bytes 22 = b.(AudioBuffer.numberOfChannels) /\
    getUint32 bytes 24 = b.(AudioBuffer.sampleRate) /\
    getUint32 bytes 28 = getUint32 bytes 24 * getUint16 bytes 32 /\
    getUint16 bytes 32 = 2 * getUint16 bytes 22 /\
    getUint16 bytes 34 = 16 /\
    getUint32 bytes 40 = Z.of_nat (List.length (data_region bytes)).
Proof.
  intros Hwf (Ht & Hr & Hbr & Hba).
  pose proof (total_length_ge b Hwf) as Hge.
  pose proof (length_wav_bytes b Hwf) as Hlen.
  eexists. split; [apply writeWav_returns, Hwf|].
  cbn [blob_bytes]. cbv zeta.
  assert (Hdl : Z.of_nat (List.length (data_region (wav_bytes b)))
                = total_length b - 44).
  { unfold data_region. rewrite length_skipn. lia. }
  rewrite Hdl, Hlen.
  destruct Hwf as (Hrate & Hl & Hn & _).
  assert (0 <= AudioBuffer.numberOfChannels b) by lia.
  unfold getUint32, getUint16.
  change (slice (wav_bytes b) 4 4) with (le_split 4 (total_length b - 8)).
  change (slice (wav_bytes b) 20 2) with (le_split 2 1).
  change (slice (wav_bytes b) 22 2)
    with (le_split 2 (AudioBuffer.numberOfChannels b)).
  change (slice (wav_bytes b) 24 4) with (le_split 4 (AudioBuffer.sampleRate b)).
  change (slice (wav_bytes b) 28 4)
    with (le_split 4 (AudioBuffer.sampleRate b * 2 * AudioBuffer.numberOfChannels b)).
  change (slice (wav_bytes b) 32 2)
    with (le_split 2 (AudioBuffer.numberOfChannels b * 2)).
  change (slice (wav_bytes b) 34 2) with (le_split 2 16).
  change (slice (wav_bytes b) 40 4) with (le_split 4 (total_length b - 44)).
  rewrite !le_combine_split.
  change (2 ^ (Z.of_nat 4 * 8)) with (2 ^ 32).
  change (2 ^ (Z.of_nat 2 * 8)) with (2 ^ 16).
  change (2 ^ 32) with 4294967296 in *. change (2 ^ 16) with 65536 in *.
  rewrite !Z.mod_small by nia.
  repeat split; lia.
Qed.

Lemma writeWav_header_readback_witness :
  exists blob,
    writeWav stereo_two_frames = Returned blob /\
    let bytes := blob_bytes blob in
    getUint32 bytes 4 = Z.of_nat (List.length bytes) - 8 /\
    getUint16 bytes 20 = 1 /\
    getUint16 bytes 22 = stereo_two_frames.(AudioBuffer.numberOfChannels) /\
    getUint32 bytes 24 = stereo_two_frames.(AudioBuffer.sampleRate) /\
    getUint32 bytes 28 = getUint32 bytes 24 * getUint16 bytes 32 /\
    getUint16 bytes 32 = 2 * getUint16 bytes 22 /\
    getUint16 bytes 34 = 16 /\
    getUint32 bytes 40 = Z.of_nat (List.length (data_region bytes)).
Proof.
  apply (writeWav_header_readback stereo_two_frames);
    [well_formed_by_evaluation | repeat split; reflexivity].
Defined.

(** A write inside the buffer replaces exactly the bytes of its range. *)
Lemma write_bytes_in_range (buf bs : list byte) (off : Z) :
  0 <= off -> off + Z.of_nat (List.length bs) <= Z.of_nat (List.length buf) ->
  exists out,
    write_bytes buf off bs = Some out /\
    List.length out = List.length buf /\
    slice out off (List.length bs) = bs /\
    forall i : nat,
      Z.of_nat i < off \/ off + Z.of_nat (List.length bs) <= Z.of_nat i ->
      nth_error out i = nth_error buf i.
Proof.
  intros H0 H1. unfold write_bytes.
  replace ((0 <=? off) && (off + Z.of_nat (List.length bs) <=? Z.of_nat (List.length buf)))
    with true by (symmetry; apply andb_true_intro; split; apply Z.leb_le; lia).
  eexists. split; [reflexivity|].
  assert (Hpre : List.length (firstn (Z.to_nat off) buf) = Z.to_nat off)
    by (apply firstn_length_le; lia).
  split; [|split].
  - rewrite !length_app, Hpre, length_skipn. lia.
  - apply slice_app_exact; [rewrite Hpre; lia | reflexivity].
  - intros i [Hi|Hi].
    + rewrite nth_error_app1 by (rewrite Hpre; lia).
      rewrite nth_error_firstn.
      destruct (Nat.ltb_spec i (Z.to_nat off)); [reflexivity | lia].
    + rewrite nth_error_app2 by (rewrite Hpre; lia).
      rewrite nth_error_app2 by (rewrite Hpre; lia).
      rewrite nth_error_skipn, Hpre. f_equal. lia.
Qed.

Lemma write_bytes_out_of_range (buf bs : list byte) (off : Z) :
  off < 0 \/ Z.of_nat (List.length buf) < off + Z.of_nat (List.length bs) ->
  write_bytes buf off bs = None.
Proof.
  intro H. unfold write_bytes.
  destruct (Z.leb_spec 0 off); [|reflexivity].
  destruct (Z.leb_spec (off + Z.of_nat (List.length bs)) (Z.of_nat (List.length buf)));
    [lia | reflexivity].
Qed.

(** [setUint32] stores [data] modulo 2^32 at the cursor and advances the
    cursor by 4; nothing else changes. *)
Theorem setUint32_in_range (data : Z) (st : closure) :
  0 <= pos st -> pos st + 4 <= Z.of_nat (List.length (view st)) ->
  exists st',
    setUint32 data st = Returned (tt, st') /\
    pos st' = pos st + 4 /\
    getUint32 (view st') (pos st) = data mod 2 ^ 32 /\
    List.length (view st') = List.length (view st) /\
    (forall i : nat, Z.of_nat i < pos st \/ pos st + 4 <= Z.of_nat i ->
                     nth_error (view st') i = nth_error (view st) i) /\
    offset st' = offset st /\ channels st' = channels st.
Proof.
  intros H0 H1.
  destruct (write_bytes_in_range (view st) (le_split 4 data) (pos st) H0)
    as (out & E & Hlen & Hs & Hframe); [rewrite length_le_split; exact H1|].
  rewrite length_le_split in *.
  eexists. split.
  - unfold setUint32, bind, get_view, get_pos, DataView_setUint32.
    rewrite E. reflexivity.
  - cbn [pos view offset channels]. split; [reflexivity|].
    split; [unfold getUint32; rewrite Hs; apply le_combine_split|].
    split; [exact Hlen|]. split; [exact Hframe|]. split; reflexivity.
Qed.

Lemma setUint32_in_range_witness :
  exists st',
    setUint32 0x46464952 small_closure = Returned (tt, st') /\
    pos st' = pos small_closure + 4 /\
    getUint32 (view st') (pos small_closure) = 0x46464952 mod 2 ^ 32 /\
    List.length (view st') = List.length (view small_closure) /\
    (forall i : nat,
        Z.of_nat i < pos small_closure \/ pos small_closure + 4 <= Z.of_nat i ->
        nth_error (view st') i = nth_error (view small_closure) i) /\
    offset st' = offset small_closure /\ channels st' = channels small_closure.
Proof.
  apply (setUint32_in_range 0x46464952 small_closure); vm_compute; discriminate.
Defined.

(** [setUint16] stores [data] modulo 2^16 at the cursor and advances the
    cursor by 2; nothing else changes. *)
Theorem setUint16_in_range (data : Z) (st : closure) :
  0 <= pos st -> pos st + 2 <= Z.of_nat (List.length (view st)) ->
  exists st',
    setUint16 data st = Returned (tt, st') /\
    pos st' = pos st + 2 /\
    getUint16 (view st') (pos st) = data mod 2 ^ 16 /\
    List.length (view st') = List.length (view st) /\
    (forall i : nat, Z.of_nat i < pos st \/ pos st + 2 <= Z.of_nat i ->
                     nth_error (view st') i = nth_error (view st) i) /\
    offset st' = offset st /\ channels st' = channels st.
Proof.
  intros H0 H1.
  destruct (write_bytes_in_range (view st) (le_split 2 data) (pos st) H0)
    as (out & E & Hlen & Hs & Hframe); [rewrite length_le_split; exact H1|].
  rewrite length_le_split in *.
  eexists. split.
  - unfold setUint16, bind, get_view, get_pos, DataView_setUint16.
    rewrite E. reflexivity.
  - cbn [pos view offset channels]. split; [reflexivity|].
    split; [unfold getUint16; rewrite Hs; apply le_combine_split|].
    split; [exact Hlen|]. split; [exact Hframe|]. split; reflexivity.
Qed.

Lemma setUint16_in_range_witness :
  exists st',
    setUint16 65537 small_closure = Returned (tt, st') /\
    pos st' = pos small_closure + 2 /\
    getUint16 (view st') (pos small_closure) = 65537 mod 2 ^ 16 /\
    List.length (view st') = List.length (view small_closure) /\
    (forall i : nat,
        Z.of_nat i < pos small_closure \/ pos small_closure + 2 <= Z.of_nat i ->
        nth_error (view st') i = nth_error (view small_closure) i) /\
    offset st' = offset small_closure /\ channels st' = channels small_closure.
Proof.
  apply (setUint16_in_range 65537 small_closure); vm_compute; discriminate.
Defined.

(** A helper whose range leaves the buffer throws [RangeError]. *)
Theorem setters_out_of_range (data : Z) (st : closure) :
  pos st < 0 \/ Z.of_nat (List.length (view st)) < pos st + 2 ->
  setUint16 data st = Thrown RangeError /\
  setUint32 data st = Thrown RangeError.
Proof.
  intro H. split.
  - unfold setUint16, bind, get_view, get_pos, DataView_setUint16.
    rewrite write_bytes_out_of_range by (rewrite length_le_split; lia).
    reflexivity.
  - unfold setUint32, bind, get_view, get_pos, DataView_setUint32.
    rewrite write_bytes_out_of_range by (rewrite length_le_split; lia).
    reflexivity.
Qed.

Lemma setters_out_of_range_witness :
  setUint16 1 full_closure = Thrown RangeError /\
  setUint32 1 full_closure = Thrown RangeError.
Proof.
  apply (setters_out_of_range 1 full_closure). right. reflexivity.
Defined.

(** The value of a sample always fits the 16 bits [setInt16] stores:
    whatever the sample, what is read back is the value computed. *)
Theorem convert_sample_fits_int16 (s : JS.number) :
  JS.valid s = true ->
  -32768 <= convert_sample s <= 32767 /\
  JS.wrap_signed 16 (le_combine (sample_bytes s)) = convert_sample s /\
  (s = JS.NaN -> convert_sample s = 0).
Proof.
  intro Hv. pose proof (convert_sample_int16 s Hv) as Hr.
  split; [exact Hr|]. split.
  - unfold sample_bytes. apply getInt16_le_split, Hr.
  - intros ->. reflexivity.
Qed.

Lemma convert_sample_fits_int16_witness :
  -32768 <= convert_sample JS.NaN <= 32767 /\
  JS.wrap_signed 16 (le_combine (sample_bytes JS.NaN)) = convert_sample JS.NaN /\
  (JS.NaN = JS.NaN -> convert_sample JS.NaN = 0).
Proof. apply (convert_sample_fits_int16 JS.NaN). reflexivity. Defined.

(* ===================================================================== *)
(** ** Properties of the string helpers *)
(* ===================================================================== *)

Lemma split_not_nil (sep : ascii) (s : string) : split sep s <> [].
Proof.
  destruct s as [|c s]; cbn [split]; [discriminate|].
  destruct (Ascii.eqb c sep); [discriminate|].
  destruct (split sep s); discriminate.
Qed.

(** A string without the separator is its only segment. *)
Lemma split_without_sep (sep : ascii) (s : string) :
  occurs sep s = false -> split sep s = [s].
Proof.
  induction s as [|c s IH]; cbn [occurs split]; [reflexivity|].
  intro H. apply orb_false_elim in H. destruct H as [Hc Hs].
  rewrite Hc, (IH Hs). reflexivity.
Qed.

(** Splitting distributes over a separator. *)
Lemma split_app (sep : ascii) (a e : string) :
  split sep (a ++ String sep e) = split sep a ++ split sep e.
Proof.
  induction a as [|c a IH]; cbn [append split].
  - rewrite Ascii.eqb_refl. reflexivity.
  - destruct (Ascii.eqb c sep).
    + rewrite IH. reflexivity.
    + rewrite IH. pose proof (split_not_nil sep a) as Hn.
      destruct (split sep a); [contradiction|]. reflexivity.
Qed.

Lemma last_cons_default {A} (a : A) (l : list A) (d d' : A) :
  last (a :: l) d = last (a :: l) d'.
Proof.
  revert a. induction l as [|b l IH]; intro a; [reflexivity|].
  change (last (b :: l) d = last (b :: l) d'). apply IH.
Qed.

Lemma pop_cons (x : string) (l : list string) :
  l <> [] -> pop (x :: l) = pop l.
Proof.
  destruct l as [|z t]; [contradiction|]. intros _.
  cbn [pop]. f_equal. destruct t as [|u t]; [reflexivity|].
  change (last (u :: t) x = last (u :: t) z). apply last_cons_default.
Qed.

Lemma pop_app (l1 l2 : list string) :
  l2 <> [] -> pop (l1 ++ l2) = pop l2.
Proof.
  intro H. induction l1 as [|x l1 IH]; [reflexivity|].
  cbn [app]. rewrite pop_cons; [exact IH|].
  destruct l1; [exact H | discriminate].
Qed.

(** The extension is what follows the last dot. *)
Lemma pop_split_app (sep : ascii) (a e : string) :
  pop (split sep (a ++ String sep e)) = pop (split sep e).
Proof. rewrite split_app. apply pop_app, split_not_nil. Qed.

Lemma toLowerCase_char_idem (c : ascii) :
  toLowerCase_char (toLowerCase_char c) = toLowerCase_char c.
Proof.
  destruct c as [[] [] [] [] [] [] [] []]; reflexivity.
Qed.

Lemma toLowerCase_char_sep (c : ascii) :
  Ascii.eqb (toLowerCase_char c) "." = Ascii.eqb c ".".
Proof.
  destruct c as [[] [] [] [] [] [] [] []]; reflexivity.
Qed.

Lemma toLowerCase_idem (s : string) :
  toLowerCase (toLowerCase s) = toLowerCase s.
Proof.
  induction s as [|c s IH]; [reflexivity|].
  cbn [toLowerCase]. rewrite toLowerCase_char_idem, IH. reflexivity.
Qed.

(** Lowering the case of a name lowers the case of its segments. *)
Lemma split_toLowerCase (s : string) :
  split "." (toLowerCase s) = map toLowerCase (split "." s).
Proof.
  induction s as [|c s IH]; [reflexivity|].
  cbn [toLowerCase split]. rewrite toLowerCase_char_sep.
  destruct (Ascii.eqb c "."); cbn [map]; rewrite IH; [reflexivity|].
  pose proof (split_not_nil "." s) as Hn.
  destruct (split "." s); [contradiction|]. reflexivity.
Qed.

Lemma last_map (f : string -> string) (l : list string) (d : string) :
  last (map f l) (f d) = f (last l d).
Proof.
  induction l as [|a l IH]; [reflexivity|].
  destruct l as [|b l]; [reflexivity|].
  change (last (map f (b :: l)) (f d) = f (last (b :: l) d)). exact IH.
Qed.

Lemma pop_map (f : string -> string) (l : list string) :
  pop (map f l) = option_map f (pop l).
Proof.
  destruct l as [|x r]; [reflexivity|]. cbn [map pop option_map]. f_equal.
  apply last_map.
Qed.

(** The part of the name before the last dot is irrelevant. *)
Theorem getMimeType_after_last_dot (base ext : string) :
  getMimeType (base ++ "." ++ ext) = getMimeType ext.
Proof.
  unfold getMimeType. change ("." ++ ext)%string with (String "." ext).
  rewrite pop_split_app. reflexivity.
Qed.

(** Two names that differ only in the case of their letters have the same
    type. *)
Theorem getMimeType_case_insensitive (f g : string) :
  toLowerCase f = toLowerCase g -> getMimeType f = getMimeType g.
Proof.
  intro H.
  assert (E : forall s, option_map toLowerCase (pop (split "." s))
                        = pop (split "." (toLowerCase (toLowerCase s)))).
  { intro s. rewrite toLowerCase_idem, split_toLowerCase, pop_map. reflexivity. }
  unfold getMimeType. rewrite (E f), (E g), H. reflexivity.
Qed.

Lemma getMimeType_case_insensitive_witness :
  getMimeType "Take 1.WAV" = getMimeType "take 1.wav".
Proof.
  apply (getMimeType_case_insensitive "Take 1.WAV" "take 1.wav"). reflexivity.
Defined.

(** The six known extensions, whatever precedes them, and the names
    without an extension. *)
Theorem getMimeType_table (base : string) :
  getMimeType (base ++ ".mp3") = "audio/mpeg"%string /\
  getMimeType (base ++ ".wav") = "audio/wav"%string /\
  getMimeType (base ++ ".ogg") = "audio/ogg"%string /\
  getMimeType (base ++ ".mp4") = "video/mp4"%string /\
  getMimeType (base ++ ".webm") = "video/webm"%string /\
  getMimeType (base ++ ".mov") = "video/quicktime"%string /\
  getMimeType (base ++ ".") = "application/octet-stream"%string /\
  getMimeType (base ++ ".wave") = "application/octet-stream"%string.
Proof.
  repeat split;
    lazymatch goal with
    | |- getMimeType (base ++ String "." ?e) = _ =>
        unfold getMimeType; rewrite pop_split_app; reflexivity
    end.
Qed.

(** The promise is resolved with what stands between the first and the
    second comma of the data URL. *)
Theorem fileToBase64_payload (header payload rest : string) :
  occurs "," header = false -> occurs "," payload = false ->
  fileToBase64_onload (ResultString (header ++ "," ++ payload))
  = Resolved (Some payload) /\
  fileToBase64_onload (ResultString (header ++ "," ++ payload ++ "," ++ rest))
  = Resolved (Some payload).
Proof.
  intros Hh Hp. unfold fileToBase64_onload.
  change ("," ++ payload)%string with (String "," payload).
  change ("," ++ payload ++ "," ++ rest)%string
    with (String "," (payload ++ String "," rest)).
  rewrite !split_app, !(split_without_sep "," header Hh),
    (split_without_sep "," payload Hp).
  split; reflexivity.
Qed.

Lemma fileToBase64_payload_witness :
  fileToBase64_onload (ResultString ("data:audio/wav;base64" ++ "," ++ "UklGRg=="))
  = Resolved (Some "UklGRg=="%string) /\
  fileToBase64_onload
    (ResultString ("data:audio/wav;base64" ++ "," ++ "UklGRg==" ++ "," ++ "x"))
  = Resolved (Some "UklGRg=="%string).
Proof.
  apply (fileToBase64_payload "data:audio/wav;base64" "UklGRg==" "x"); reflexivity.
Defined.

(** A result without a comma resolves the promise with [undefined]; only
    a result that is not a string rejects it. *)
Theorem fileToBase64_without_comma (s : string) :
  occurs "," s = false ->
  fileToBase64_onload (ResultString s) = Resolved None.
Proof.
  intro H. unfold fileToBase64_onload.
  rewrite (split_without_sep "," s H). reflexivity.
Qed.

Lemma fileToBase64_without_comma_witness :
  fileToBase64_onload (ResultString "data:") = Resolved None.
Proof. apply (fileToBase64_without_comma "data:"). reflexivity. Defined.

Lemma two_digits_check :
  forallb (fun n => String.eqb
                      (padStart 2 "0" (toString (Z.of_nat n)))
                      (String (digit (Z.of_nat n / 10))
                              (String (digit (Z.of_nat n mod 10)) EmptyString)))
          (seq 0 100) = true.
Proof. vm_compute. reflexivity. Qed.

(** A field below 100 is shown with exactly two digits. *)
Lemma two_digits (n : Z) :
  0 <= n < 100 ->
  padStart 2 "0" (toString n)
  = String (digit (n / 10)) (String (digit (n mod 10)) EmptyString).
Proof.
  intro H. pose proof two_digits_check as Hc.
  rewrite forallb_forall in Hc.
  specialize (Hc (Z.to_nat n)).
  rewrite Z2Nat.id in Hc by lia.
  apply String.eqb_eq, Hc, in_seq. lia.
Qed.

(** Below 100 minutes the text is [MM:SS]: two digits of minutes, a
    colon, two digits of seconds. *)
Theorem formatTime_mm_ss (seconds : Z) :
  0 <= seconds < 6000 ->
  formatTime seconds = mm_ss (seconds / 60) (seconds mod 60).
Proof.
  intro H. unfold formatTime, mm_ss. cbv zeta.
  rewrite Z.rem_mod_nonneg by lia.
  pose proof (Z.mod_pos_bound seconds 60 ltac:(lia)) as Hs.
  assert (Hm : 0 <= seconds / 60 < 100)
    by (split; [apply Z.div_pos; lia | apply Z.div_lt_upper_bound; lia]).
  rewrite (two_digits (seconds / 60) Hm).
  rewrite (two_digits (seconds mod 60)) by lia.
  reflexivity.
Qed.

Lemma formatTime_mm_ss_witness :
  formatTime 125 = mm_ss (125 / 60) (125 mod 60).
Proof. apply (formatTime_mm_ss 125). lia. Defined.

Lemma occurs_app (c : ascii) (a b : string) :
  occurs c (a ++ b) = occurs c a || occurs c b.
Proof.
  induction a as [|x a IH]; [reflexivity|].
  cbn [append occurs]. rewrite IH, orb_assoc. reflexivity.
Qed.

Lemma string_of_uint_no_colon (d : Decimal.uint) :
  occurs ":" (NilEmpty.string_of_uint d) = false.
Proof. induction d; cbn [NilEmpty.string_of_uint occurs]; auto. Qed.

Lemma toString_no_colon (n : Z) : occurs ":" (toString n) = false.
Proof.
  unfold toString, NilZero.string_of_int, NilZero.string_of_uint.
  destruct (Z.to_int n) as [d|d]; destruct d; cbn [occurs];
    try reflexivity; apply (string_of_uint_no_colon (_ d)).
Qed.

Lemma padStart_no_colon (s : string) :
  occurs ":" s = false -> occurs ":" (padStart 2 "0" s) = false.
Proof.
  intro H. unfold padStart. rewrite occurs_app, H, orb_false_r.
  destruct (2 - String.length s)%nat as [|[|[|k]]] eqn:E;
    try reflexivity; lia.
Qed.

Lemma to_int_not_nil (n : Z) :
  Z.to_int n <> Decimal.Pos Decimal.Nil /\ Z.to_int n <> Decimal.Neg Decimal.Nil.
Proof.
  split; intro H; pose proof (f_equal Z.of_int H) as H';
    rewrite DecimalZ.of_to in H'; vm_compute in H'; subst n;
    vm_compute in H; discriminate H.
Qed.

Lemma parse_toString (n : Z) : parse_field (toString n) = Some n.
Proof.
  unfold parse_field, toString. destruct (to_int_not_nil n) as [H1 H2].
  rewrite NilZero.isi by assumption. cbn [option_map].
  rewrite DecimalZ.of_to. reflexivity.
Qed.

Lemma parse_field_pad_check :
  forallb (fun n =>
             let a := ascii_of_nat n in
             match NilZero.int_of_string (String a EmptyString) with
             | None | Some (Decimal.Neg Decimal.Nil) => true
             | Some d =>
                 match parse_field (String "0" (String a EmptyString)) with
                 | Some z => z =? Z.of_int d
                 | None => false
                 end
             end)
          (seq 0 256) = true.
Proof. vm_compute. reflexivity. Qed.

(** A zero put before a single character does not change the integer
    read. *)
Lemma parse_field_pad (a : ascii) (d : Decimal.signed_int) :
  NilZero.int_of_string (String a EmptyString) = Some d ->
  d <> Decimal.Neg Decimal.Nil ->
  parse_field (String "0" (String a EmptyString)) = Some (Z.of_int d).
Proof.
  intros H Hd. pose proof parse_field_pad_check as Hc.
  rewrite forallb_forall in Hc. specialize (Hc (nat_of_ascii a)).
  cbv zeta in Hc. rewrite ascii_nat_embedding, H in Hc.
  assert (Hin : In (nat_of_ascii a) (seq 0 256))
    by (apply in_seq; pose proof (nat_ascii_bounded a); lia).
  specialize (Hc Hin).
  destruct (parse_field (String "0" (String a EmptyString))) as [z|].
  - destruct d as [u|u]; [apply Z.eqb_eq in Hc; congruence|].
    destruct u; try (apply Z.eqb_eq in Hc; congruence).
    exfalso; apply Hd; reflexivity.
  - destruct d as [u|u]; [discriminate Hc|].
    destruct u; try discriminate Hc. exfalso; apply Hd; reflexivity.
Qed.

Lemma parse_padStart (n : Z) :
  parse_field (padStart 2 "0" (toString n)) = Some n.
Proof.
  pose proof (parse_toString n) as H. destruct (to_int_not_nil n) as [_ Hn].
  unfold parse_field, toString in *.
  pose proof (NilZero.isi (Z.to_int n) (proj1 (to_int_not_nil n)) Hn) as Hi.
  destruct (NilZero.string_of_int (Z.to_int n)) as [|a [|b s]].
  - discriminate Hi.
  - change (padStart 2 "0" (String a EmptyString))
      with (String "0" (String a EmptyString)).
    fold (parse_field (String "0" (String a EmptyString))).
    rewrite (parse_field_pad a _ Hi Hn), DecimalZ.of_to. reflexivity.
  - exact H.
Qed.

(** The text can be read back: for a number of seconds that is not
    negative, the two fields denote its minutes and seconds. *)
Lemma parse_formatTime (seconds : Z) :
  0 <= seconds -> parse_time (formatTime seconds) = Some seconds.
Proof.
  intro H. unfold parse_time, formatTime. cbv zeta.
  change (":" ++ padStart 2 "0" (toString (Z.rem seconds 60)))%string
    with (String ":" (padStart 2 "0" (toString (Z.rem seconds 60)))).
  rewrite split_app.
  rewrite !split_without_sep by (apply padStart_no_colon, toString_no_colon).
  cbn [app]. rewrite !parse_padStart.
  rewrite Z.rem_mod_nonneg by lia. f_equal.
  pose proof (Z.div_mod seconds 60 ltac:(lia)). lia.
Qed.

(** Two different numbers of seconds are never shown as the same text. *)
Theorem formatTime_injective (s t : Z) :
  0 <= s < 2 ^ 53 -> 0 <= t < 2 ^ 53 -> formatTime s = formatTime t -> s = t.
Proof.
  intros Hs Ht E. apply (f_equal parse_time) in E.
  rewrite !parse_formatTime in E by lia.
  injection E as E. exact E.
Qed.

Lemma formatTime_injective_witness : 125 = 125.
Proof.
  apply (formatTime_injective 125 125); [split | split | reflexivity];
    reflexivity || discriminate.
Defined.
